(** * Session core, audit logger and API client of the catalog front end

    A shallow embedding of

      - [src/context/AuthContext.tsx]   (AuthProvider: decodeJwtPayload,
        jwtToAuthUser, clearRefreshTimer, applyToken, silentRefresh, login,
        logout, hasRole),
      - [src/services/auditLogger.ts]   (hashEmail, buildEvent, flushQueue and
        the [auditLogger] object),
      - [src/services/apiClient.ts]     (getCsrfToken, apiFetch),

    together with the browser pieces they touch.  The page is single
    threaded: a call runs until its next [await], so an [async] function is
    embedded as a resumption ([Async]) that either settles or is suspended on
    a platform promise with a continuation that receives the world as it is
    when the promise settles.  A small scheduler interleaves the suspended
    calls, timer fires and UI calls; invariants are proved over every state
    it reaches.

    What the embedding takes from the platform rather than from the
    repository:

      - values keep their TypeScript types: a decoded payload that is an
        object is a [JwtPayload] with [exp] in whole epoch seconds, and the
        built-ins that can throw ([atob], [JSON.parse],
        [decodeURIComponent]) return an option;
      - React state is read between synchronous runs only, since React 18
        ([createRoot] in [main.tsx]) batches the updates of one run;
      - [crypto.subtle.digest] fulfils, with 32 bytes for SHA-256;
      - [setTimeout] records the delay it is asked for; the timer table
        holds the refresh timers only (the abort timer of [apiFetch] shows
        as the outcome of its [fetch], the batch interval of the logger as
        a turn of the event loop). *)

From stdpp Require Import base option list gmap strings.
From Stdlib Require Import ZArith Lia Ascii String.
From Stdlib.Strings Require Import Byte.

Local Open Scope string_scope.
Local Open Scope Z_scope.

(* ================================================================== *)
(** ** JavaScript string primitives used by the sources *)
(* ================================================================== *)

(** Strings are sequences of code units; the sources only ever split,
    replace and compare single one-unit characters. *)

(** [s.split(sep)] for a one-character separator: [cur] is the segment
    being read.  ["".split(".")] is [[""]], ["a."] gives [["a"; ""]]. *)
Fixpoint split_from (sep : ascii) (cur : string) (s : string) : list string :=
  match s with
  | EmptyString => [cur]
  | String c rest =>
      if Ascii.eqb c sep
      then cur :: split_from sep EmptyString rest
      else split_from sep (cur ++ String c EmptyString) rest
  end.

Definition split (sep : ascii) (s : string) : list string :=
  split_from sep EmptyString s.

(** [s.replace(/c/g, d)] for single characters [c] and [d]. *)
Fixpoint replaceAll (c d : ascii) (s : string) : string :=
  match s with
  | EmptyString => EmptyString
  | String x rest => String (if Ascii.eqb x c then d else x) (replaceAll c d rest)
  end.

(** [s.startsWith(p)] *)
Definition startsWith (p s : string) : bool := String.prefix p s.

(** One hexadecimal digit, lower case as [Number.prototype.toString(16)]
    prints it. *)
Definition hexDigit (n : N) : ascii :=
  match n with
  | 0%N => "0" | 1%N => "1" | 2%N => "2" | 3%N => "3"
  | 4%N => "4" | 5%N => "5" | 6%N => "6" | 7%N => "7"
  | 8%N => "8" | 9%N => "9" | 10%N => "a" | 11%N => "b"
  | 12%N => "c" | 13%N => "d" | 14%N => "e" | _ => "f"
  end%char.

(** [n.toString(16)] for a non-negative integer: digits are produced from
    the least significant one; [fuel] bounds the number of digits. *)
Fixpoint toString16_digits (fuel : nat) (n : N) (acc : string) : string :=
  match fuel with
  | O => acc
  | S fuel' =>
      let acc' := String (hexDigit (n mod 16)) acc in
      if (n / 16 =? 0)%N then acc' else toString16_digits fuel' (n / 16)%N acc'
  end.

Definition toString16 (n : N) : string :=
  toString16_digits (S (N.to_nat (N.log2 n))) n EmptyString.

(** [s.padStart(len, c)] for a one-character filler. *)
Definition padStart (len : nat) (c : ascii) (s : string) : string :=
  string_of_list_ascii (repeat c (len - String.length s)) ++ s.

(** [parts.join("")] *)
Definition join_empty (parts : list string) : string :=
  foldr String.append EmptyString parts.


(** Every code unit of [s] satisfies [P]. *)
Fixpoint allChars (P : ascii -> bool) (s : string) : bool :=
  match s with
  | EmptyString => true
  | String c rest => P c && allChars P rest
  end.

(** [hay] contains [needle] as a contiguous run (what
    [String.prototype.includes] and vitest's [toContain] test). *)
Fixpoint includes (needle hay : string) : bool :=
  String.prefix needle hay ||
  match hay with
  | EmptyString => false
  | String _ rest => includes needle rest
  end.

(* ================================================================== *)
(** ** Values crossing the network boundary *)
(* ================================================================== *)

(** A parsed JSON document, as [response.json()] resolves to. *)
#[warnings="-register-all"]
Inductive Json : Type :=
| JNull
| JBool (b : bool)
| JNum (z : Z)
| JStr (s : string)
| JArr (items : list Json)
| JObj (fields : list (string * Json)).

Fixpoint assoc (k : string) (fs : list (string * Json)) : option Json :=
  match fs with
  | [] => None
  | (k', v) :: rest => if String.eqb k k' then Some v else assoc k rest
  end.

(** [v[k]] for the two property names the sources read from a response
    body ([accessToken], [message]), neither of which any prototype
    defines: [None] is the TypeError of reading a property of [null],
    [Some None] is [undefined]. *)
Definition getProp (v : Json) (k : string) : option (option Json) :=
  match v with
  | JNull => None
  | JObj fs => Some (assoc k fs)
  | _ => Some None
  end.

(** Errors the sources throw or let through. *)
Inductive JsError : Type :=
| Error (message : string)
| ApiError (status : Z) (message : string)
| DOMException (name : string)
| TypeError
| SyntaxError
| URIError.

(** How a platform promise settles. *)
Inductive Settled (A : Type) : Type :=
| Fulfilled (a : A)
| RejectedWith (e : JsError).
Arguments Fulfilled {A} a.
Arguments RejectedWith {A} e.

Inductive RequestBody : Type :=
| BodyText (s : string)
| BodyJson (fields : list (string * string)).   (* JSON.stringify of a flat object *)

Module Request.
Record t : Type := mk {
  url : string;
  method : string;
  headers : gmap string string;
  credentials : string;
  body : option RequestBody;
  signal : bool;                  (* an AbortController signal is attached *)
  keepalive : bool
}.
End Request.

Module Response.
Record t : Type := mk { status : Z }.
(** [response.ok] *)
Definition ok (r : t) : bool := (200 <=? status r) && (status r <=? 299).
End Response.

(** What an [await] in the sources waits for. *)
Inductive Pending : Type :=
| PFetch (req : Request.t)                       (* fetch(url, init) *)
| PJson (resp : Response.t)                      (* response.json() *)
| PDigest (algorithm : string) (data : list byte). (* crypto.subtle.digest *)

(** What the continuation is handed.  A digest of a byte array under a
    supported algorithm always fulfils, with the value the platform's
    digest function fixes, so its outcome carries no choice. *)
Definition Outcome (p : Pending) : Type :=
  match p with
  | PFetch _ => Settled Response.t
  | PJson _ => Settled Json
  | PDigest _ _ => unit
  end.

(* ================================================================== *)
(** ** types/user.ts and types/audit.ts *)
(* ================================================================== *)

(** [UserRole] is a string literal union; the claims of a token are
    decoded, not verified, so the role is kept as the string it is. *)
Definition UserRole : Type := string.

Module JwtPayload.
Record t : Type := mk {
  sub : string;
  email : string;
  role : UserRole;
  displayName : string;
  exp : Z;            (* epoch seconds *)
  iat : Z
}.
End JwtPayload.

Module AuthUser.
Record t : Type := mk {
  id : string;
  email : string;
  role : UserRole;
  displayName : string
}.
End AuthUser.

(** What [JSON.parse(json) as JwtPayload] evaluates to.  The cast is
    taken at its word for objects; the falsy results ([null], [false],
    [0], the empty string) are the ones [if (!payload)] sends back. *)
Inductive JsPayload : Type :=
| PayloadNull
| PayloadFalsy
| PayloadObject (p : JwtPayload.t).

Inductive AuditAction : Type :=
| login_ | login_failed | logout_ | review_submitted | admin_page_access
| unauthorized_access_attempt | token_refresh | search_performed.

Definition actionName (a : AuditAction) : string :=
  match a with
  | login_ => "login"
  | login_failed => "login_failed"
  | logout_ => "logout"
  | review_submitted => "review_submitted"
  | admin_page_access => "admin_page_access"
  | unauthorized_access_attempt => "unauthorized_access_attempt"
  | token_refresh => "token_refresh"
  | search_performed => "search_performed"
  end.

Inductive MetaValue : Type :=
| MetaString (s : string)
| MetaNumber (n : nat).

Module AuditEvent.
Record t : Type := mk {
  timestamp : string;
  sessionId : string;
  userId : option string;
  action : AuditAction;
  target : option string;
  metadata : list (string * MetaValue);
  correlationId : string
}.
End AuditEvent.

(** Every string an event carries, as [JSON.stringify(event)] spells
    them out. *)
Definition eventStrings (ev : AuditEvent.t) : list string :=
  [AuditEvent.timestamp ev; AuditEvent.sessionId ev]
  ++ option_list (AuditEvent.userId ev)
  ++ [actionName (AuditEvent.action ev)]
  ++ option_list (AuditEvent.target ev)
  ++ flat_map (fun kv => match kv with
                         | (k, MetaString v) => [k; v]
                         | (k, MetaNumber _) => [k]
                         end) (AuditEvent.metadata ev)
  ++ [AuditEvent.correlationId ev].

(* ================================================================== *)
(** ** The platform *)
(* ================================================================== *)

(** Browser built-ins and build-time constants the sources call but do
    not define.  [randomUUID n] is the n-th value [crypto.randomUUID()]
    hands out on this page. *)
Class Platform : Type := {
  atob : string -> option string;                (* None: InvalidCharacterError *)
  JSON_parse : string -> option JsPayload;       (* None: SyntaxError *)
  toLowerCase : string -> string;
  toUpperCase : string -> string;
  trim : string -> string;
  TextEncoder_encode : string -> list byte;
  subtle_digest : string -> list byte -> list byte;
  subtle_digest_SHA256_length :
    forall data, List.length (subtle_digest "SHA-256" data) = 32%nat;
  toISOString : Z -> string;
  randomUUID : nat -> string;
  decodeURIComponent : string -> option string;  (* None: URIError *)
  toErrorMessage : Json -> string;               (* String(v) of a non-string *)
  API_BASE : string;                             (* VITE_API_BASE_URL ?? default *)
  AUDIT_ENDPOINT : option string;                (* VITE_AUDIT_ENDPOINT *)
  SESSION_CORRELATION_ID : string
}.

(* ================================================================== *)
(** ** The world a call runs in *)
(* ================================================================== *)

(** React state of [AuthProvider]: the two [useState] cells and the
    [useRef] holding the handle of the refresh timer. *)
Record AuthState : Type := {
  token : option string;
  user : option AuthUser.t;
  refreshTimerRef : option nat
}.

Inductive Transport : Type := ViaFetch | ViaBeacon.

(** Module state of [auditLogger.ts]; [delivered] lists the batches the
    module handed to [fetch] or [navigator.sendBeacon]. *)
Record AuditState : Type := {
  currentUserId : option string;
  sessionId : string;
  eventQueue : list AuditEvent.t;
  delivered : list (Transport * list AuditEvent.t)
}.

(** Calls out of [apiFetch] that are not awaited. *)
Inductive Effect : Type :=
| CallLogoutHandler
| CallErrorToast (message : string)
| SetLocationHref (href : string).

(** The browser: clock (milliseconds since the epoch), the table of
    armed refresh timers (handle to delay in milliseconds), the next
    handle [setTimeout] returns, the number of UUIDs drawn, the cookie
    string and the log of outward calls. *)
Record Browser : Type := {
  now : Z;
  timers : gmap nat Z;
  nextTimerId : nat;
  uuidCount : nat;
  cookie : string;
  hasSendBeacon : bool;
  effects : list Effect
}.

Record World : Type := {
  auth : AuthState;
  audit : AuditState;
  browser : Browser
}.

Definition with_auth (f : AuthState -> AuthState) (w : World) : World :=
  {| auth := f (auth w); audit := audit w; browser := browser w |}.
Definition with_audit (f : AuditState -> AuditState) (w : World) : World :=
  {| auth := auth w; audit := f (audit w); browser := browser w |}.
Definition with_browser (f : Browser -> Browser) (w : World) : World :=
  {| auth := auth w; audit := audit w; browser := f (browser w) |}.

(** [setToken(v)], [setUser(v)] and [refreshTimerRef.current = v].  React
    18 ([createRoot]) batches the state updates of one synchronous run, so
    a render only ever sees the world between two runs. *)
Definition setToken (v : option string) : World -> World :=
  with_auth (fun a =>
    {| token := v; user := user a; refreshTimerRef := refreshTimerRef a |}).
Definition setUser (v : option AuthUser.t) : World -> World :=
  with_auth (fun a =>
    {| token := token a; user := v; refreshTimerRef := refreshTimerRef a |}).
Definition setRefreshTimerRef (v : option nat) : World -> World :=
  with_auth (fun a =>
    {| token := token a; user := user a; refreshTimerRef := v |}).

(** [setTimeout(() => void silentRefresh(), delay)]: arms a one-shot
    timer and returns its handle. *)
Definition setTimeout (delay : Z) (w : World) : nat * World :=
  let id := nextTimerId (browser w) in
  (id, with_browser (fun b =>
         {| now := now b; timers := <[id := delay]> (timers b);
            nextTimerId := S id; uuidCount := uuidCount b;
            cookie := cookie b; hasSendBeacon := hasSendBeacon b;
            effects := effects b |}) w).

(** [clearTimeout(id)]: a handle that is not armed is ignored. *)
Definition clearTimeout (id : nat) : World -> World :=
  with_browser (fun b =>
    {| now := now b; timers := delete id (timers b);
       nextTimerId := nextTimerId b; uuidCount := uuidCount b;
       cookie := cookie b; hasSendBeacon := hasSendBeacon b;
       effects := effects b |}).

Definition logEffect (e : Effect) : World -> World :=
  with_browser (fun b =>
    {| now := now b; timers := timers b;
       nextTimerId := nextTimerId b; uuidCount := uuidCount b;
       cookie := cookie b; hasSendBeacon := hasSendBeacon b;
       effects := effects b ++ [e] |}).

(** [crypto.randomUUID()] *)
Definition drawUUID `{Platform} (w : World) : string * World :=
  (randomUUID (uuidCount (browser w)),
   with_browser (fun b =>
     {| now := now b; timers := timers b;
        nextTimerId := nextTimerId b; uuidCount := S (uuidCount b);
        cookie := cookie b; hasSendBeacon := hasSendBeacon b;
        effects := effects b |}) w).

(** Time passing. *)
Definition advance (dt : Z) : World -> World :=
  with_browser (fun b =>
    {| now := now b + Z.max 0 dt; timers := timers b;
       nextTimerId := nextTimerId b; uuidCount := uuidCount b;
       cookie := cookie b; hasSendBeacon := hasSendBeacon b;
       effects := effects b |}).

(* ================================================================== *)
(** ** async / await *)
(* ================================================================== *)

(** The state of a call after a synchronous run: settled, or suspended
    at an [await] on [p].  [w] is the world the run leaves behind; the
    continuation gets the outcome and the world as others have left it
    in the meantime. *)
Inductive Async (A : Type) : Type :=
| Resolved (w : World) (a : A)
| Rejected (w : World) (e : JsError)
| Await (w : World) (p : Pending) (k : Outcome p -> World -> Async A).
Arguments Resolved {A} w a.
Arguments Rejected {A} w e.
Arguments Await {A} w p k.

Definition Task (A : Type) : Type := World -> Async A.

Fixpoint andThen {A B : Type} (t : Async A) (f : A -> Task B) : Async B :=
  match t with
  | Resolved w a => f a w
  | Rejected w e => Rejected w e
  | Await w p k => Await w p (fun o w' => andThen (k o w') f)
  end.

(** [try { ... } catch { ... }] around a (possibly suspended) body. *)
Fixpoint orElse {A : Type} (t : Async A) (h : JsError -> Task A) : Async A :=
  match t with
  | Resolved w a => Resolved w a
  | Rejected w e => h e w
  | Await w p k => Await w p (fun o w' => orElse (k o w') h)
  end.

Definition ret {A : Type} (a : A) : Task A := fun w => Resolved w a.
Definition throw {A : Type} (e : JsError) : Task A := fun w => Rejected w e.
Definition bind {A B : Type} (m : Task A) (f : A -> Task B) : Task B :=
  fun w => andThen (m w) f.
Definition try_catch {A : Type} (m : Task A) (h : JsError -> Task A) : Task A :=
  fun w => orElse (m w) h.
(** A synchronous statement. *)
Definition exec (f : World -> World) : Task unit := fun w => Resolved (f w) tt.
(** [await p] *)
Definition await (p : Pending) : Task (Outcome p) :=
  fun w => Await w p (fun o w' => Resolved w' o).

Notation "'let*' x ':=' m 'in' k" := (bind m (fun x => k))
  (at level 10, x name, m at level 100, k at level 200).
Notation "m ';;' k" := (bind m (fun _ => k))
  (at level 100, k at level 200, right associativity).

(** [await fetch(url, init)] and [await response.json()]: a rejected
    promise is thrown at the [await]. *)
Definition fetch (req : Request.t) : Task Response.t :=
  let* o := await (PFetch req) in
  match o with
  | Fulfilled r => ret r
  | RejectedWith e => throw e
  end.

Definition json (resp : Response.t) : Task Json :=
  let* o := await (PJson resp) in
  match o with
  | Fulfilled v => ret v
  | RejectedWith e => throw e
  end.

(* ================================================================== *)
(** ** services/auditLogger.ts *)
(* ================================================================== *)

Definition BATCH_INTERVAL_MS : Z := 5000.

(** [b.toString(16).padStart(2, '0')] *)
Definition byteToHex (b : byte) : string :=
  padStart 2 "0" (toString16 (Byte.to_N b)).

(** [hashArray.map(...).join('')] *)
Definition hexOfBytes (bs : list byte) : string :=
  join_empty (map byteToHex bs).

(** [email.toLowerCase().trim()] *)
Definition normalizeEmail `{Platform} (email : string) : string :=
  trim (toLowerCase email).

(** The value [hashEmail(email)] resolves to. *)
Definition emailDigestHex `{Platform} (email : string) : string :=
  hexOfBytes (subtle_digest "SHA-256" (TextEncoder_encode (normalizeEmail email))).

Definition hashEmail `{Platform} (email : string) : Task string :=
  let data := TextEncoder_encode (normalizeEmail email) in
  await (PDigest "SHA-256" data) ;;
  let hashArray := subtle_digest "SHA-256" data in
  ret (hexOfBytes hashArray).

Definition buildEvent `{Platform} (action : AuditAction) (target : option string)
    (metadata : list (string * MetaValue)) (w : World) : AuditEvent.t :=
  {| AuditEvent.timestamp := toISOString (now (browser w));
     AuditEvent.sessionId := sessionId (audit w);
     AuditEvent.userId := currentUserId (audit w);
     AuditEvent.action := action;
     AuditEvent.target := target;
     AuditEvent.metadata := metadata;
     AuditEvent.correlationId := SESSION_CORRELATION_ID |}.

(** [eventQueue.push(ev)] *)
Definition push (ev : AuditEvent.t) : World -> World :=
  with_audit (fun a =>
    {| currentUserId := currentUserId a; sessionId := sessionId a;
       eventQueue := eventQueue a ++ [ev]; delivered := delivered a |}).

(** [eventQueue.push(buildEvent(action, target, metadata))] *)
Definition enqueue `{Platform} (action : AuditAction) (target : option string)
    (metadata : list (string * MetaValue)) (w : World) : World :=
  push (buildEvent action target metadata w) w.

(** [eventQueue.splice(0, eventQueue.length)]: empties the queue and
    returns what it held. *)
Definition spliceAll (w : World) : list AuditEvent.t * World :=
  (eventQueue (audit w),
   with_audit (fun a =>
     {| currentUserId := currentUserId a; sessionId := sessionId a;
        eventQueue := []; delivered := delivered a |}) w).

Definition deliver (via : Transport) (events : list AuditEvent.t) : World -> World :=
  with_audit (fun a =>
    {| currentUserId := currentUserId a; sessionId := sessionId a;
       eventQueue := eventQueue a; delivered := delivered a ++ [(via, events)] |}).

(** Fire and forget: the [fetch] is not awaited and its failure is
    swallowed.  [!AUDIT_ENDPOINT] holds of an unset and of an empty
    endpoint. *)
Definition sendBatch `{Platform} (events : list AuditEvent.t) (w : World) : World :=
  match AUDIT_ENDPOINT, events with
  | None, _ | Some EmptyString, _ | _, [] => w
  | Some _, _ => deliver ViaFetch events w
  end.

Definition flushQueue `{Platform} (w : World) : World :=
  match eventQueue (audit w) with
  | [] => w
  | _ => let '(events, w1) := spliceAll w in sendBatch events w1
  end.

Definition sendBeaconFlush `{Platform} (w : World) : World :=
  match AUDIT_ENDPOINT, eventQueue (audit w) with
  | None, _ | Some EmptyString, _ | _, [] => w
  | Some _, _ =>
      let '(events, w1) := spliceAll w in
      if hasSendBeacon (browser w1)
      then deliver ViaBeacon events w1
      else sendBatch events w1
  end.

Module auditLogger.
Section Methods.
Context `{Platform}.

Definition setUser (userId : option string) : World -> World :=
  with_audit (fun a =>
    {| currentUserId := userId; sessionId := sessionId a;
       eventQueue := eventQueue a; delivered := delivered a |}).

Definition resetSession (w : World) : World :=
  let '(uuid, w1) := drawUUID w in
  with_audit (fun a =>
    {| currentUserId := None; sessionId := uuid;
       eventQueue := eventQueue a; delivered := delivered a |}) w1.

Definition logLogin (email : string) : Task unit :=
  let* hashedEmail := hashEmail email in
  exec (enqueue login_ None [("emailHash", MetaString hashedEmail)]).

Definition logLoginFailed (email : string) : Task unit :=
  let* hashedEmail := hashEmail email in
  exec (enqueue login_failed None [("emailHash", MetaString hashedEmail)]).

Definition logLogout : World -> World :=
  enqueue logout_ None [].

Definition logReviewSubmitted (movieId : string) : World -> World :=
  enqueue review_submitted (Some movieId) [].

Definition logAdminPageAccess (page : string) : World -> World :=
  enqueue admin_page_access (Some page) [].

Definition logUnauthorizedAccess (attemptedPath : string) : World -> World :=
  enqueue unauthorized_access_attempt (Some attemptedPath) [].

Definition logTokenRefresh : World -> World :=
  enqueue token_refresh None [].

Definition logSearch (term : string) : World -> World :=
  enqueue search_performed None [("termLength", MetaNumber (String.length term))].

Definition flush : World -> World := flushQueue.
End Methods.
End auditLogger.

(* ================================================================== *)
(** ** context/AuthContext.tsx *)
(* ================================================================== *)

(** Seconds before token expiry to trigger silent refresh *)
Definition REFRESH_BUFFER_SECONDS : Z := 60.

Section AuthProvider.
Context `{Platform}.

Definition decodeJwtPayload (token : string) : JsPayload :=
  let parts := split "." token in
  if negb (List.length parts =? 3)%nat then PayloadNull else
  let base64 :=
    replaceAll "_" "/" (replaceAll "-" "+" (default EmptyString (parts !! 1%nat))) in
  match atob base64 with
  | None => PayloadNull                       (* catch *)
  | Some json =>
      match JSON_parse json with
      | None => PayloadNull                   (* catch *)
      | Some payload => payload
      end
  end.

Definition jwtToAuthUser (payload : JwtPayload.t) : AuthUser.t :=
  {| AuthUser.id := JwtPayload.sub payload;
     AuthUser.email := JwtPayload.email payload;
     AuthUser.role := JwtPayload.role payload;
     AuthUser.displayName := JwtPayload.displayName payload |}.

Definition clearRefreshTimer (w : World) : World :=
  match refreshTimerRef (auth w) with
  | Some id => setRefreshTimerRef None (clearTimeout id w)
  | None => w
  end.

Definition applyToken (accessToken : string) (w : World) : World :=
  match decodeJwtPayload accessToken with
  | PayloadNull | PayloadFalsy => w
  | PayloadObject payload =>
      let w := setToken (Some accessToken) w in
      let authUser := jwtToAuthUser payload in
      let w := setUser (Some authUser) w in
      let w := auditLogger.setUser (Some (AuthUser.id authUser)) w in
      (* Schedule silent refresh 60s before expiry *)
      let nowSeconds := now (browser w) / 1000 in
      let secondsUntilRefresh :=
        JwtPayload.exp payload - nowSeconds - REFRESH_BUFFER_SECONDS in
      let w := clearRefreshTimer w in
      if 0 <? secondsUntilRefresh
      then let '(id, w) := setTimeout (secondsUntilRefresh * 1000) w in
           setRefreshTimerRef (Some id) w
      else w
  end.

(** [applyToken(data.accessToken)] where the body was only cast to
    [LoginResponse]: on anything but a string, [token.split] throws
    inside the [try] of [decodeJwtPayload], which then returns
    [null]. *)
Definition applyToken_of (accessToken : option Json) (w : World) : World :=
  match accessToken with
  | Some (JStr s) => applyToken s w
  | _ => w
  end.

(** [data.accessToken] *)
Definition accessTokenOf (data : Json) : Task (option Json) :=
  match getProp data "accessToken" with
  | Some v => ret v
  | None => throw TypeError
  end.

Definition authRequest (path : string) (body : option RequestBody) : Request.t :=
  {| Request.url := API_BASE ++ path;
     Request.method := "POST";
     Request.headers := {[ "Content-Type" := "application/json" ]};
     Request.credentials := "include";
     Request.body := body;
     Request.signal := false;
     Request.keepalive := false |}.

(** The two [catch] blocks and the [else] branch of [silentRefresh]. *)
Definition clearSession (w : World) : World :=
  clearRefreshTimer (auditLogger.setUser None (setUser None (setToken None w))).

Definition silentRefresh : Task unit :=
  try_catch
    (let* response := fetch (authRequest "/api/auth/refresh" None) in
     if Response.ok response then
       let* data := json response in
       let* accessToken := accessTokenOf data in
       exec (applyToken_of accessToken) ;;
       exec auditLogger.logTokenRefresh
     else
       (* Refresh failed — clear session *)
       exec clearSession)
    (fun _ =>
       (* Network error during refresh — clear session gracefully *)
       exec clearSession).

Definition login (email password : string) : Task unit :=
  let* response :=
    fetch (authRequest "/api/auth/login"
             (Some (BodyJson [("email", email); ("password", password)]))) in
  if negb (Response.ok response) then
    auditLogger.logLoginFailed email ;;
    throw (Error "Invalid email or password")
  else
    let* data := json response in
    let* accessToken := accessTokenOf data in
    exec (applyToken_of accessToken) ;;
    auditLogger.logLogin email.

Definition logout : Task unit :=
  exec auditLogger.logLogout ;;
  exec clearRefreshTimer ;;
  try_catch
    (fetch (authRequest "/api/auth/logout" None) ;; ret tt)
    (fun _ => ret tt (* Best-effort — always clear local state regardless *)) ;;
  exec (setToken None) ;;
  exec (setUser None) ;;
  exec (auditLogger.setUser None) ;;
  exec auditLogger.resetSession.

Definition hasRole (role : UserRole) (w : World) : bool :=
  match user (auth w) with
  | None => false
  | Some u =>
      if String.eqb role "viewer" then true
      else if String.eqb role "reviewer"
      then String.eqb (AuthUser.role u) "reviewer" || String.eqb (AuthUser.role u) "admin"
      else String.eqb (AuthUser.role u) "admin"
  end.

(** [token !== null && user !== null] *)
Definition isAuthenticated (w : World) : bool :=
  bool_decide (token (auth w) ≠ None) && bool_decide (user (auth w) ≠ None).
End AuthProvider.

(* ================================================================== *)
(** ** services/apiClient.ts *)
(* ================================================================== *)

Definition REQUEST_TIMEOUT_MS : Z := 10000.

(** The callbacks [configureApiClient] installs. *)
Record ApiConfig : Type := {
  getToken : World -> option string;
  onLogout : World -> World;
  onError : string -> World -> World
}.

(** The module's initial callbacks. *)
Definition unconfigured : ApiConfig :=
  {| getToken := fun _ => None; onLogout := fun w => w; onError := fun _ w => w |}.

(** What [main.tsx] installs: the token getter is never patched and the
    logout callback is empty. *)
Definition mainConfig : ApiConfig :=
  {| getToken := fun _ => None; onLogout := fun w => w; onError := fun _ w => w |}.

Record RequestInit : Type := {
  init_method : option string;
  init_headers : option (gmap string string);
  init_body : option RequestBody
}.

Definition MUTATING_METHODS : list string := ["POST"; "PUT"; "PATCH"; "DELETE"].

(** [err instanceof DOMException && err.name === 'AbortError'] *)
Definition isAbortError (err : JsError) : bool :=
  match err with
  | DOMException name => String.eqb name "AbortError"
  | _ => false
  end.

Section ApiClient.
Context `{Platform}.
Variable config : ApiConfig.

Definition handleLogout (w : World) : World :=
  onLogout config (logEffect CallLogoutHandler w).

Definition showErrorToast (message : string) (w : World) : World :=
  onError config message (logEffect (CallErrorToast message) w).

(** [window.location.href = href] *)
Definition setLocationHref (href : string) : World -> World :=
  logEffect (SetLocationHref href).

Definition getCsrfToken : Task (option string) := fun w =>
  let found :=
    find (startsWith "XSRF-TOKEN=") (map trim (split ";" (cookie (browser w)))) in
  match found with
  | Some c =>
      match decodeURIComponent (default EmptyString (split "=" c !! 1%nat)) with
      | Some v => Resolved w (Some v)
      | None => Rejected w URIError
      end
  | None => Resolved w None
  end.

(** [if (s)] on a [string | null] *)
Definition truthy (s : option string) : bool :=
  match s with
  | Some EmptyString | None => false
  | Some _ => true
  end.

Definition withHeader (cond : bool) (k v : string)
    (headers : gmap string string) : gmap string string :=
  if cond then <[k := v]> headers else headers.

(** [(body['message'] as string | undefined) ?? 'Request failed'], as
    the [Error] constructor stores it. *)
Definition messageOf (body : Json) : Task string :=
  match getProp body "message" with
  | None => throw TypeError
  | Some None | Some (Some JNull) => ret "Request failed"
  | Some (Some (JStr s)) => ret s
  | Some (Some v) => ret (toErrorMessage v)
  end.

Definition apiFetch (path : string) (options : RequestInit) : Task (option Json) :=
  let url := API_BASE ++ path in
  let method := toUpperCase (default "GET" (init_method options)) in
  let headers : gmap string string :=
    default ∅ (init_headers options)
      ∪ {[ "Content-Type" := "application/json";
           "X-Correlation-ID" := SESSION_CORRELATION_ID ]} in
  let* token := (fun w => Resolved w (getToken config w)) in
  let headers :=
    withHeader (truthy token) "Authorization" ("Bearer " ++ default EmptyString token)
      headers in
  let* headers :=
    (if bool_decide (method ∈ MUTATING_METHODS) then
       let* csrfToken := getCsrfToken in
       ret (withHeader (truthy csrfToken) "X-XSRF-TOKEN"
              (default EmptyString csrfToken) headers)
     else ret headers) in
  let* response :=
    try_catch
      (fetch {| Request.url := url;
                Request.method := method;
                Request.headers := headers;
                Request.credentials := "include";
                Request.body := init_body options;
                Request.signal := true;
                Request.keepalive := false |})
      (fun err =>
         if isAbortError err
         then throw (Error "Request timed out. Please try again.")
         else throw (Error "Network error. Please check your connection.")) in
  if Response.status response =? 401 then
    exec handleLogout ;;
    exec (setLocationHref "/login") ;;
    throw (Error "Session expired. Please log in again.")
  else if Response.status response =? 403 then
    exec (setLocationHref "/unauthorized") ;;
    throw (Error "Access denied.")
  else if 500 <=? Response.status response then
    (* OWASP A04 - never expose raw server errors to the UI *)
    exec (showErrorToast "Something went wrong. Please try again later.") ;;
    throw (Error "Server error.")
  else if negb (Response.ok response) then
    let* body := try_catch (json response) (fun _ => ret (JObj [])) in
    let* message := messageOf body in
    throw (ApiError (Response.status response) message)
  else if Response.status response =? 204 then
    ret None
  else
    let* data := json response in
    ret (Some data).
End ApiClient.

(* ================================================================== *)
(** ** The page as a transition system *)
(* ================================================================== *)

(** What the rest of the application may call at any time. *)
Inductive Call : Type :=
| Mount                                   (* useEffect: void silentRefresh() *)
| Unmount                                 (* the effect's cleanup: clearRefreshTimer *)
| Login (email password : string)
| Logout
| ApiFetch (path : string) (options : RequestInit)
| LogReviewSubmitted (movieId : string)
| LogAdminPageAccess (page : string)
| LogUnauthorizedAccess (attemptedPath : string)
| LogSearch (term : string)
| Flush.

Definition discard {A : Type} (m : Task A) : Task unit := m ;; ret tt.

Definition perform `{Platform} (c : Call) : Task unit :=
  match c with
  | Mount => silentRefresh
  | Unmount => exec clearRefreshTimer
  | Login email password => login email password
  | Logout => logout
  | ApiFetch path options => discard (apiFetch mainConfig path options)
  | LogReviewSubmitted movieId => exec (auditLogger.logReviewSubmitted movieId)
  | LogAdminPageAccess page => exec (auditLogger.logAdminPageAccess page)
  | LogUnauthorizedAccess attemptedPath =>
      exec (auditLogger.logUnauthorizedAccess attemptedPath)
  | LogSearch term => exec (auditLogger.logSearch term)
  | Flush => exec auditLogger.flush
  end.

(** A call suspended at an [await]. *)
Record Suspended : Type := {
  pending : Pending;
  resume : Outcome pending -> World -> Async unit
}.

Record System : Type := {
  world : World;
  pool : list Suspended
}.

(** Where a synchronous run leaves the page. *)
Definition park (t : Async unit) (others : list Suspended) : System :=
  match t with
  | Resolved w _ | Rejected w _ => {| world := w; pool := others |}
  | Await w p k => {| world := w; pool := {| pending := p; resume := k |} :: others |}
  end.

(** The page right after its modules are loaded: nobody is signed in, no
    timer is armed, the audit session identifier is the first UUID drawn. *)
Definition initialWorld `{Platform} (t0 : Z) (cookies : string) (beacon : bool) : World :=
  {| auth := {| token := None; user := None; refreshTimerRef := None |};
     audit := {| currentUserId := None; sessionId := randomUUID 0;
                 eventQueue := []; delivered := [] |};
     browser := {| now := t0; timers := ∅; nextTimerId := 1; uuidCount := 1;
                   cookie := cookies; hasSendBeacon := beacon; effects := [] |} |}.

Definition initial `{Platform} (t0 : Z) (cookies : string) (beacon : bool) : System :=
  {| world := initialWorld t0 cookies beacon; pool := [] |}.

(** One turn of the event loop.  A timer may fire whenever it is armed
    (its delay is not consulted, which only adds behaviours); firing
    disarms it, as timers are one-shot. *)
Inductive step `{Platform} : System -> System -> Prop :=
| step_call (s : System) (c : Call) :
    step s (park (perform c (world s)) (pool s))
| step_settle (s : System) (i : nat) (t : Suspended) (o : Outcome (pending t)) :
    pool s !! i = Some t ->
    step s (park (resume t o (world s)) (delete i (pool s)))
| step_timer (s : System) (id : nat) (delay : Z) :
    timers (browser (world s)) !! id = Some delay ->
    step s (park (silentRefresh (clearTimeout id (world s))) (pool s))
| step_time (s : System) (dt : Z) :
    step s {| world := advance dt (world s); pool := pool s |}
| step_batch (s : System) :
    step s {| world := flushQueue (world s); pool := pool s |}
| step_hidden (s : System) :
    step s {| world := sendBeaconFlush (world s); pool := pool s |}.

Inductive reachable `{Platform} : System -> Prop :=
| reachable_initial (t0 : Z) (cookies : string) (beacon : bool) :
    reachable (initial t0 cookies beacon)
| reachable_step (s s' : System) :
    reachable s -> step s s' -> reachable s'.

(** Running one call to its end against a fixed network: [net] settles
    every promise the call waits for.  The result is the last world, how
    the call settled and the promises it waited for, in order. *)
Fixpoint runWith {A : Type} (net : forall p : Pending, Outcome p) (t : Async A)
    : World * (JsError + A) * list Pending :=
  match t with
  | Resolved w a => (w, inr a, [])
  | Rejected w e => (w, inl e, [])
  | Await w p k =>
      let '(w', r, ps) := runWith net (k (net p) w) in (w', r, p :: ps)
  end.

(** The turn in which the call suspended first in the pool is resumed,
    its promise settled as [net] says. *)
Definition settleFirst (net : forall p : Pending, Outcome p) (s : System) : System :=
  match pool s with
  | t :: others => park (resume t (net (pending t)) (world s)) others
  | [] => s
  end.

(* ================================================================== *)
(** ** A concrete platform for examples *)
(* ================================================================== *)

(** The built-ins restricted to what the examples feed them: ASCII case
    mapping and trimming, base64 decoding as [atob] does it, SHA-256, the
    UUID stub of the repository's test setup, and a [JSON.parse] that
    knows the payloads of the example tokens. *)
(** SHA-256 (FIPS 180-4) on 32-bit words held in [N]. *)
Module SHA256.
Local Open Scope N_scope.

Definition mask : N := 0xffffffff.
Definition add32 (a b : N) : N := N.land (a + b) mask.
Definition rotr (n x : N) : N :=
  N.lor (N.shiftr x n) (N.land (N.shiftl x (32 - n)) mask).
Definition Ch (e f g : N) : N := N.lxor (N.land e f) (N.land (N.lxor e mask) g).
Definition Maj (a b c : N) : N :=
  N.lxor (N.lxor (N.land a b) (N.land a c)) (N.land b c).
Definition Sigma0 (a : N) : N := N.lxor (N.lxor (rotr 2 a) (rotr 13 a)) (rotr 22 a).
Definition Sigma1 (e : N) : N := N.lxor (N.lxor (rotr 6 e) (rotr 11 e)) (rotr 25 e).
Definition sigma0 (x : N) : N := N.lxor (N.lxor (rotr 7 x) (rotr 18 x)) (N.shiftr x 3).
Definition sigma1 (x : N) : N := N.lxor (N.lxor (rotr 17 x) (rotr 19 x)) (N.shiftr x 10).

(** The first 64 primes. *)
Definition primes : list N :=
  [2; 3; 5; 7; 11; 13; 17; 19; 23; 29; 31; 37; 41; 43; 47; 53; 59; 61; 67; 71; 73; 79;
   83; 89; 97; 101; 103; 107; 109; 113; 127; 131; 137; 139; 149; 151; 157; 163; 167;
   173; 179; 181; 191; 193; 197; 199; 211; 223; 227; 229; 233; 239; 241; 251; 257; 263;
   269; 271; 277; 281; 283; 293; 307; 311].

(** The integer cube root, found bit by bit from [2 ^ bits] down. *)
Fixpoint cbrt (bits : nat) (n acc : N) : N :=
  match bits with
  | O => acc
  | S bits' =>
      let candidate := acc + 2 ^ N.of_nat bits' in
      if candidate * candidate * candidate <=? n
      then cbrt bits' n candidate
      else cbrt bits' n acc
  end.

(** The round constants: the first 32 bits of the fractional parts of
    the cube roots of the primes. *)
Definition K : list N :=
  Eval vm_compute in map (fun p => cbrt 36 (p * 2 ^ 96) 0 mod 2 ^ 32) primes.

Record State : Type := {
  a : N; b : N; c : N; d : N; e : N; f : N; g : N; h : N
}.

(** The first 32 bits of the fractional part of a square root. *)
Definition sqrtFraction (p : N) : N := N.sqrt (p * 2 ^ 64) mod 2 ^ 32.

(** The initial hash value, from the square roots of the first eight
    primes. *)
Definition H0 : State :=
  Eval vm_compute in
  {| a := sqrtFraction 2; b := sqrtFraction 3; c := sqrtFraction 5; d := sqrtFraction 7;
     e := sqrtFraction 11; f := sqrtFraction 13; g := sqrtFraction 17;
     h := sqrtFraction 19 |}.

(** The message schedule, latest word first. *)
Fixpoint extend (n : nat) (ws : list N) : list N :=
  match n with
  | O => ws
  | S n' =>
      let w := add32 (add32 (sigma1 (nth 1 ws 0)) (nth 6 ws 0))
                     (add32 (sigma0 (nth 14 ws 0)) (nth 15 ws 0)) in
      extend n' (w :: ws)
  end.

Definition round (s : State) (kw : N * N) : State :=
  let t1 := add32 (add32 (add32 (h s) (Sigma1 (e s))) (Ch (e s) (f s) (g s)))
                  (add32 (fst kw) (snd kw)) in
  let t2 := add32 (Sigma0 (a s)) (Maj (a s) (b s) (c s)) in
  {| a := add32 t1 t2; b := a s; c := b s; d := c s;
     e := add32 (d s) t1; f := e s; g := f s; h := g s |}.

Definition compress (s : State) (block : list N) : State :=
  let ws := rev (extend 48 (rev block)) in
  let r := fold_left round (combine K ws) s in
  {| a := add32 (a s) (a r); b := add32 (b s) (b r); c := add32 (c s) (c r);
     d := add32 (d s) (d r); e := add32 (e s) (e r); f := add32 (f s) (f r);
     g := add32 (g s) (g r); h := add32 (h s) (h r) |}.

Fixpoint words (bs : list N) : list N :=
  match bs with
  | b3 :: b2 :: b1 :: b0 :: rest =>
      (b3 * 16777216 + b2 * 65536 + b1 * 256 + b0) :: words rest
  | _ => []
  end.

Fixpoint blocks (n : nat) (ws : list N) : list (list N) :=
  match n with
  | O => []
  | S n' => firstn 16 ws :: blocks n' (skipn 16 ws)
  end.

Definition bigEndian (width : nat) (n : N) : list N :=
  map (fun i => N.shiftr n (8 * N.of_nat i) mod 256) (rev (seq 0 width)).

Definition pad (bs : list N) : list N :=
  let len := List.length bs in
  let zeros := ((119 - len mod 64) mod 64)%nat in
  bs ++ [128] ++ repeat 0 zeros ++ bigEndian 8 (8 * N.of_nat len).

Definition toByte (n : N) : byte :=
  match Byte.of_N (n mod 256) with
  | Some x => x
  | None => "000"%byte
  end.

Definition wordBytes (w : N) : list byte :=
  [toByte (N.shiftr w 24); toByte (N.shiftr w 16); toByte (N.shiftr w 8); toByte w].

Definition digest (data : list byte) : list byte :=
  let padded := pad (map Byte.to_N data) in
  let s := fold_left compress (blocks (List.length padded / 64) (words padded)) H0 in
  wordBytes (a s) ++ wordBytes (b s) ++ wordBytes (c s) ++ wordBytes (d s) ++
  wordBytes (e s) ++ wordBytes (f s) ++ wordBytes (g s) ++ wordBytes (h s).

End SHA256.

Module Fixture.

Definition lowerChar (c : ascii) : ascii :=
  let n := N_of_ascii c in
  if ((65 <=? n) && (n <=? 90))%N then ascii_of_N (n + 32) else c.

Definition upperChar (c : ascii) : ascii :=
  let n := N_of_ascii c in
  if ((97 <=? n) && (n <=? 122))%N then ascii_of_N (n - 32) else c.

Fixpoint mapChars (f : ascii -> ascii) (s : string) : string :=
  match s with
  | EmptyString => EmptyString
  | String c rest => String (f c) (mapChars f rest)
  end.

Definition isSpace (c : ascii) : bool :=
  let n := N_of_ascii c in
  ((9 <=? n) && (n <=? 13) || (n =? 32))%N.

Fixpoint trimStart (s : string) : string :=
  match s with
  | String c rest => if isSpace c then trimStart rest else s
  | EmptyString => EmptyString
  end.

Definition reverse (s : string) : string :=
  string_of_list_ascii (rev (list_ascii_of_string s)).

Definition trimAscii (s : string) : string :=
  reverse (trimStart (reverse (trimStart s))).

Definition base64Value (c : ascii) : option N :=
  let n := N_of_ascii c in
  if ((65 <=? n) && (n <=? 90))%N then Some (n - 65)%N
  else if ((97 <=? n) && (n <=? 122))%N then Some (n - 71)%N
  else if ((48 <=? n) && (n <=? 57))%N then Some (n + 4)%N
  else if (n =? 43)%N then Some 62%N
  else if (n =? 47)%N then Some 63%N
  else None.

Fixpoint base64Bytes (vs : list N) : list N :=
  match vs with
  | a :: b :: c :: d :: rest =>
      let n := (a * 262144 + b * 4096 + c * 64 + d)%N in
      (n / 65536) :: (n / 256 mod 256) :: (n mod 256) :: base64Bytes rest
  | [a; b; c] =>
      let n := (a * 4096 + b * 64 + c)%N in
      [n / 1024; n / 4 mod 256]
  | [a; b] => [(a * 64 + b) / 16]
  | _ => []
  end%N.

Definition stripPadding (cs : list ascii) : list ascii :=
  if (List.length cs mod 4 =? 0)%nat then
    match rev cs with
    | "="%char :: "="%char :: r => rev r
    | "="%char :: r => rev r
    | _ => cs
    end
  else cs.

Definition base64Decode (s : string) : option string :=
  let cs := stripPadding (List.filter (fun c => negb (isSpace c)) (list_ascii_of_string s)) in
  if (List.length cs mod 4 =? 1)%nat then None else
  vs ← mapM base64Value cs;
  Some (string_of_list_ascii (map ascii_of_N (base64Bytes vs))).

(** Writes a JSON text with ['] where the text has a double quote. *)
Definition jsonText (template : string) : string :=
  replaceAll "'" "034" template.

Definition alice : JwtPayload.t :=
  {| JwtPayload.sub := "user-1"; JwtPayload.email := "alice@example.com";
     JwtPayload.role := "reviewer"; JwtPayload.displayName := "Alice";
     JwtPayload.exp := 1700003600; JwtPayload.iat := 1700000000 |}.

Definition aliceJson : string :=
  jsonText "{'exp':1700003600,'iat':1700000000,'sub':'user-1','email':'alice@example.com','role':'reviewer','displayName':'Alice'}".

(** Three segments, payload [aliceJson] in base64. *)
Definition aliceToken : string :=
  "eyJhbGciOiJSUzI1NiIsInR5cCI6IkpXVCJ9.eyJleHAiOjE3MDAwMDM2MDAsImlhdCI6MTcwMDAwMDAwMCwic3ViIjoidXNlci0xIiwiZW1haWwiOiJhbGljZUBleGFtcGxlLmNvbSIsInJvbGUiOiJyZXZpZXdlciIsImRpc3BsYXlOYW1lIjoiQWxpY2UifQ==.fake-signature".

(** Same claims, expiring half a minute after the example clock. *)
Definition expiring : JwtPayload.t :=
  {| JwtPayload.sub := "user-1"; JwtPayload.email := "alice@example.com";
     JwtPayload.role := "reviewer"; JwtPayload.displayName := "Alice";
     JwtPayload.exp := 1700000030; JwtPayload.iat := 1700000000 |}.

Definition expiringJson : string :=
  jsonText "{'exp':1700000030,'iat':1700000000,'sub':'user-1','email':'alice@example.com','role':'reviewer','displayName':'Alice'}".

Definition expiringToken : string :=
  "eyJhbGciOiJSUzI1NiIsInR5cCI6IkpXVCJ9.eyJleHAiOjE3MDAwMDAwMzAsImlhdCI6MTcwMDAwMDAwMCwic3ViIjoidXNlci0xIiwiZW1haWwiOiJhbGljZUBleGFtcGxlLmNvbSIsInJvbGUiOiJyZXZpZXdlciIsImRpc3BsYXlOYW1lIjoiQWxpY2UifQ==.fake-signature".

(** Three segments whose middle one decodes to text that is not JSON. *)
Definition garbledToken : string := "eyJhbGciOiJSUzI1NiIsInR5cCI6IkpXVCJ9.bm90IGpzb24=.fake-signature".

Definition parsePayload (s : string) : option JsPayload :=
  if String.eqb s aliceJson then Some (PayloadObject alice)
  else if String.eqb s expiringJson then Some (PayloadObject expiring)
  else if String.eqb s "null" then Some PayloadNull
  else if String.eqb s "0" then Some PayloadFalsy
  else None.

Definition testUUID : string := "test-uuid-1234-5678-abcd-ef0123456789".

Definition decodeUnescaped (s : string) : option string :=
  if includes "%" s then None else Some s.

#[export] Instance platform : Platform :=
  {| atob := base64Decode;
     JSON_parse := parsePayload;
     toLowerCase := mapChars lowerChar;
     toUpperCase := mapChars upperChar;
     trim := trimAscii;
     TextEncoder_encode := list_byte_of_string;
     subtle_digest := fun _ => SHA256.digest;
     subtle_digest_SHA256_length := fun _ => eq_refl;
     toISOString := fun _ => "2023-11-14T22:13:20.000Z";
     randomUUID := fun _ => testUUID;
     decodeURIComponent := decodeUnescaped;
     toErrorMessage := fun _ => "[object Object]";
     API_BASE := "http://localhost:8080";
     AUDIT_ENDPOINT := Some "http://localhost:8080/api/audit/events";
     SESSION_CORRELATION_ID := testUUID |}.

(** 2023-11-14T22:13:20Z, no cookies, [sendBeacon] available. *)
Definition world0 : World := initialWorld 1700000000000 "" true.

(** A server that answers every request with 200 and the body
  [{ accessToken: t }]. *)
Definition serving (t : string) (p : Pending) : Outcome p :=
  match p with
  | PFetch _ => Fulfilled {| Response.status := 200 |}
  | PJson _ => Fulfilled (JObj [("accessToken", JStr t)])
  | PDigest _ _ => tt
  end.

(** A server that answers every request with the given status. *)
Definition refusing (status : Z) (p : Pending) : Outcome p :=
  match p with
  | PFetch _ => Fulfilled {| Response.status := status |}
  | PJson _ => Fulfilled (JObj [("message", JStr "Request refused")])
  | PDigest _ _ => tt
  end.

(** [apiFetch('/api/movies')] is called with no options. *)
Definition getMovies : RequestInit :=
  {| init_method := None; init_headers := None; init_body := None |}.

(** The callbacks the tests of the API client install. *)
Definition testConfig : ApiConfig :=
  {| getToken := fun _ => Some "test-token-abc";
   onLogout := fun w => w;
   onError := fun _ w => w |}.

Definition withCsrfCookie : World :=
  initialWorld 1700000000000 "theme=dark; XSRF-TOKEN=csrf-test-token-123" true.

Definition post : RequestInit :=
  {| init_method := Some "post"; init_headers := None; init_body := Some (BodyText "{}") |}.

(** The page after [AuthProvider] mounted, and after the refresh it
  started came back with Alice's token. *)
Definition mounted : System := park (perform Mount world0) [].
Definition signedIn : System :=
  settleFirst (serving aliceToken) (settleFirst (serving aliceToken) mounted).

(** Alice clicks Logout and the server answers 204. *)
Definition signedOut : System :=
  settleFirst (refusing 204) (park (perform Logout (world signedIn)) (pool signedIn)).

End Fixture.

(* ================================================================== *)
(** ** Properties of calls and of the page *)
(* ================================================================== *)

(** [always I t]: [I] holds of the world wherever the call [t] yields
    or settles, provided it holds whenever the call is resumed. *)
Fixpoint always (I : World -> Prop) {A : Type} (t : Async A) : Prop :=
  match t with
  | Resolved w _ | Rejected w _ => I w
  | Await w p k => I w /\ forall (o : Outcome p) (w' : World), I w' -> always I (k o w')
  end.

Definition preserves (I : World -> Prop) {A : Type} (m : Task A) : Prop :=
  forall w, I w -> always I (m w).

(** The session invariant: token and claims are set together, and every
    armed refresh timer is the one [refreshTimerRef] holds, with a handle
    [setTimeout] has already handed out. *)
Definition consistent (w : World) : Prop :=
  (token (auth w) = None <-> user (auth w) = None) /\
  (forall id delay, timers (browser w) !! id = Some delay ->
     refreshTimerRef (auth w) = Some id /\ (id < nextTimerId (browser w))%nat).

Definition stable (s : System) : Prop :=
  consistent (world s) /\
  Forall (fun t => forall o w, consistent w -> always consistent (resume t o w)) (pool s).

(** A token that is not three dot-separated segments, or whose payload
    segment does not decode to JSON. *)
Definition malformed `{Platform} (accessToken : string) : Prop :=
  List.length (split "." accessToken) <> 3%nat \/
  exists segment,
    split "." accessToken !! 1%nat = Some segment /\
    let base64 := replaceAll "_" "/" (replaceAll "-" "+" segment) in
    atob base64 = None \/
    exists text, atob base64 = Some text /\ JSON_parse text = None.

(** The enqueue operations of [auditLogger], as calls. *)
Inductive EnqueueOp : Type :=
| OpLogLogin (email : string)
| OpLogLoginFailed (email : string)
| OpLogLogout
| OpLogReviewSubmitted (movieId : string)
| OpLogAdminPageAccess (page : string)
| OpLogUnauthorizedAccess (attemptedPath : string)
| OpLogTokenRefresh
| OpLogSearch (term : string).

Definition callOp `{Platform} (op : EnqueueOp) : Task unit :=
  match op with
  | OpLogLogin email => auditLogger.logLogin email
  | OpLogLoginFailed email => auditLogger.logLoginFailed email
  | OpLogLogout => exec auditLogger.logLogout
  | OpLogReviewSubmitted movieId => exec (auditLogger.logReviewSubmitted movieId)
  | OpLogAdminPageAccess page => exec (auditLogger.logAdminPageAccess page)
  | OpLogUnauthorizedAccess attemptedPath =>
      exec (auditLogger.logUnauthorizedAccess attemptedPath)
  | OpLogTokenRefresh => exec auditLogger.logTokenRefresh
  | OpLogSearch term => exec (auditLogger.logSearch term)
  end.

(** The event an enqueue operation builds when it pushes in world [w]. *)
Definition eventOf `{Platform} (op : EnqueueOp) (w : World) : AuditEvent.t :=
  match op with
  | OpLogLogin email =>
      buildEvent login_ None [("emailHash", MetaString (emailDigestHex email))] w
  | OpLogLoginFailed email =>
      buildEvent login_failed None [("emailHash", MetaString (emailDigestHex email))] w
  | OpLogLogout => buildEvent logout_ None [] w
  | OpLogReviewSubmitted movieId => buildEvent review_submitted (Some movieId) [] w
  | OpLogAdminPageAccess page => buildEvent admin_page_access (Some page) [] w
  | OpLogUnauthorizedAccess attemptedPath =>
      buildEvent unauthorized_access_attempt (Some attemptedPath) [] w
  | OpLogTokenRefresh => buildEvent token_refresh None [] w
  | OpLogSearch term =>
      buildEvent search_performed None [("termLength", MetaNumber (String.length term))] w
  end.

(** A call that returned, without throwing, before giving up control. *)
Definition completedSynchronously {A : Type} (t : Async A) : Prop :=
  exists w a, t = Resolved w a.

(** How often [apiFetch] called the logout callback and set the location. *)
Definition logoutCalls (w : World) : nat :=
  List.length (List.filter (fun e => match e with CallLogoutHandler => true | _ => false end)
                 (effects (browser w))).

Definition redirects (w : World) : list string :=
  omap (fun e => match e with SetLocationHref h => Some h | _ => None end)
       (effects (browser w)).


(* ================================================================== *)
(** ** utils/urlValidator.ts *)
(* ================================================================== *)

(** [\w] of a regular expression without the unicode flag. *)
Definition isWordChar (c : ascii) : bool :=
  let n := N_of_ascii c in
  ((48 <=? n) && (n <=? 57) || (65 <=? n) && (n <=? 90) ||
   (97 <=? n) && (n <=? 122) || (n =? 95))%N.

(** The class [[\w.-]]. *)
Definition isHostChar (c : ascii) : bool :=
  isWordChar c || Ascii.eqb c "." || Ascii.eqb c "-".

Definition CDN_SUFFIX : string := ".cdn.imdb-lite.com/".

(** [[\w.-]+\.cdn\.imdb-lite\.com\/] anchored at the start of [s]: one
    character of the class is consumed, then either the suffix follows or
    the class goes on. *)
Fixpoint matchCdnHost (s : string) : bool :=
  match s with
  | EmptyString => false
  | String c rest => isHostChar c && (String.prefix CDN_SUFFIX rest || matchCdnHost rest)
  end.

(** [s] without the prefix [p], when it starts with it. *)
Fixpoint afterPrefix (p s : string) : option string :=
  match p, s with
  | EmptyString, _ => Some s
  | String a p', String b s' => if Ascii.eqb a b then afterPrefix p' s' else None
  | String _ _, EmptyString => None
  end.

(** [CDN_ALLOWLIST_PATTERN.test(url)] for
    [/^https:\/\/[\w.-]+\.cdn\.imdb-lite\.com\//]. *)
Definition isValidCdnUrl (url : string) : bool :=
  match afterPrefix "https://" url with
  | Some rest => matchCdnHost rest
  | None => false
  end.

(** The default of the parameter [placeholder]. *)
Definition DEFAULT_PLACEHOLDER : string := "/placeholder-movie.svg".

Definition getCdnUrlOrPlaceholder (url placeholder : string) : string :=
  if isValidCdnUrl url then url else placeholder.

(* ================================================================== *)
(** ** components/ProtectedRoute.tsx and components/AdminRoute.tsx *)
(* ================================================================== *)

(** What a guard returns: [<Navigate to=... state={{ from }} replace />]
    or its children. *)
Inductive GuardOutcome : Type :=
| NavigateTo (to : string) (from : option string)
| RenderChildren.

Section Guards.
Context `{Platform}.

(** One render of [ProtectedRoute] at [location.pathname]. *)
Definition ProtectedRoute (requiredRole : option UserRole) (pathname : string)
    (w : World) : GuardOutcome * World :=
  if negb (isAuthenticated w) then (NavigateTo "/login" (Some pathname), w)
  else if match requiredRole with
          | Some role => truthy (Some role) && negb (hasRole role w)
          | None => false
          end
  then (NavigateTo "/unauthorized" None, auditLogger.logUnauthorizedAccess pathname w)
  else (RenderChildren, w).

(** One render of [AdminRoute]. *)
Definition AdminRoute (pathname : string) (w : World) : GuardOutcome * World :=
  if negb (isAuthenticated w) then (NavigateTo "/login" (Some pathname), w)
  else if negb (hasRole "admin" w)
  then (NavigateTo "/unauthorized" None, auditLogger.logUnauthorizedAccess pathname w)
  else (RenderChildren, w).

(** The effects a first render of [AdminRoute] in the world [rendered]
    has registered, run after the commit: the re-check, which the render
    registers before any of its returns, and the page-access log, which
    it registers only when it goes on to render its children.  The
    closures test the authentication state the render saw; the logger
    is the module's, in the world of the commit. *)
Definition AdminRoute_effects (pathname : string) (rendered : World) (w : World) : World :=
  let w :=
    if isAuthenticated rendered && negb (hasRole "admin" rendered)
    then auditLogger.logUnauthorizedAccess pathname w
    else w in
  if isAuthenticated rendered && hasRole "admin" rendered
  then auditLogger.logAdminPageAccess pathname w
  else w.

(** Mounting [AdminRoute]: one render, then its effects, as React does
    outside the development-only repetitions of [StrictMode]. *)
Definition AdminRoute_mount (pathname : string) (w : World) : GuardOutcome * World :=
  let '(outcome, w1) := AdminRoute pathname w in
  (outcome, AdminRoute_effects pathname w w1).
End Guards.

(* ================================================================== *)
(** ** What the audit logger holds *)
(* ================================================================== *)

(** Every event the logger has taken in and not dropped: the batches it
    handed over, in order, then the queue. *)
Definition history (w : World) : list AuditEvent.t :=
  (List.concat (map snd (delivered (audit w))) ++ eventQueue (audit w))%list.

(** Nothing the logger held or handed over in [w] is missing, moved or
    changed in [w']. *)
Definition conserving (w w' : World) : Prop :=
  history w `prefix_of` history w'.

(** [along R w0 t]: every synchronous run of the call [t] takes the
    world it starts in to one that is [R]-related to it; the first run
    starts in [w0], a resumed one in the world it is handed. *)
Fixpoint along (R : World -> World -> Prop) (w0 : World) {A : Type} (t : Async A) : Prop :=
  match t with
  | Resolved w _ | Rejected w _ => R w0 w
  | Await w p k => R w0 w /\ forall (o : Outcome p) (w' : World), along R w' (k o w')
  end.

Definition keeps (R : World -> World -> Prop) {A : Type} (m : Task A) : Prop :=
  forall w, along R w (m w).

(** The value of a hexadecimal digit, for reading [hexOfBytes] back. *)
Definition hexValue (c : ascii) : N :=
  let n := N_of_ascii c in
  if (n <? 58)%N then (n - 48)%N else (n - 87)%N.

Fixpoint bytesOfHex (s : string) : list N :=
  match s with
  | String hi (String lo rest) => (hexValue hi * 16 + hexValue lo)%N :: bytesOfHex rest
  | _ => []
  end.

(** [s] has no character [c]. *)
Definition lacksChar (c : ascii) (s : string) : bool :=
  allChars (fun x => negb (Ascii.eqb x c)) s.

(** Every event carries the correlation id of the page and a session
    identifier [crypto.randomUUID()] has handed out on it. *)
Definition stamped `{Platform} (w : World) (ev : AuditEvent.t) : Prop :=
  AuditEvent.correlationId ev = SESSION_CORRELATION_ID /\
  exists n, (n < uuidCount (browser w))%nat /\ AuditEvent.sessionId ev = randomUUID n.

Definition wellFormedTrail `{Platform} (w : World) : Prop :=
  (exists n, (n < uuidCount (browser w))%nat /\ sessionId (audit w) = randomUUID n) /\
  Forall (fun batch => snd batch <> []) (delivered (audit w)) /\
  Forall (stamped w) (history w).

(** An example platform without an audit endpoint. *)
Module Offline.
Definition platform : Platform :=
  {| atob := Fixture.base64Decode;
     JSON_parse := Fixture.parsePayload;
     toLowerCase := Fixture.mapChars Fixture.lowerChar;
     toUpperCase := Fixture.mapChars Fixture.upperChar;
     trim := Fixture.trimAscii;
     TextEncoder_encode := list_byte_of_string;
     subtle_digest := fun _ => SHA256.digest;
     subtle_digest_SHA256_length := fun _ => eq_refl;
     toISOString := fun _ => "2023-11-14T22:13:20.000Z";
     randomUUID := fun _ => Fixture.testUUID;
     decodeURIComponent := Fixture.decodeUnescaped;
     toErrorMessage := fun _ => "[object Object]";
     API_BASE := "http://localhost:8080";
     AUDIT_ENDPOINT := None;
     SESSION_CORRELATION_ID := Fixture.testUUID |}.
End Offline.

(** An administrator, signed in by hand. *)
Definition asAdmin : World :=
  setUser (Some {| AuthUser.id := "user-9"; AuthUser.email := "root@example.com";
                   AuthUser.role := "admin"; AuthUser.displayName := "Root" |})
    (setToken (Some "admin-token") Fixture.world0).

(** An example platform whose server names its users by their e-mail
    address: the subject of Carol's token is her address. *)
Module Mailbox.
Definition carol : JwtPayload.t :=
  {| JwtPayload.sub := "carol@example.com"; JwtPayload.email := "carol@example.com";
     JwtPayload.role := "viewer"; JwtPayload.displayName := "Carol";
     JwtPayload.exp := 1700003600; JwtPayload.iat := 1700000000 |}.

Definition carolJson : string :=
  Fixture.jsonText "{'exp':1700003600,'iat':1700000000,'sub':'carol@example.com','email':'carol@example.com','role':'viewer','displayName':'Carol'}".


Definition parsePayload (s : string) : option JsPayload :=
  if String.eqb s carolJson then Some (PayloadObject carol) else Fixture.parsePayload s.

Definition platform : Platform :=
  {| atob := Fixture.base64Decode;
     JSON_parse := parsePayload;
     toLowerCase := Fixture.mapChars Fixture.lowerChar;
     toUpperCase := Fixture.mapChars Fixture.upperChar;
     trim := Fixture.trimAscii;
     TextEncoder_encode := list_byte_of_string;
     subtle_digest := fun _ => SHA256.digest;
     subtle_digest_SHA256_length := fun _ => eq_refl;
     toISOString := fun _ => "2023-11-14T22:13:20.000Z";
     randomUUID := fun _ => Fixture.testUUID;
     decodeURIComponent := Fixture.decodeUnescaped;
     toErrorMessage := fun _ => "[object Object]";
     API_BASE := "http://localhost:8080";
     AUDIT_ENDPOINT := Some "http://localhost:8080/api/audit/events";
     SESSION_CORRELATION_ID := Fixture.testUUID |}.

End Mailbox.

(** Callbacks that sign the user out on the page: the logout handler
    clears the React state, the token provider reads it. *)
Definition signingOut : ApiConfig :=
  {| getToken := fun w => token (auth w);
     onLogout := fun w => setUser None (setToken None w);
     onError := fun _ w => w |}.

(** Alice is signed in and the batch timer has fired; then she clicked
    Logout and the server answered 204. *)
Definition flushed : System :=
  {| world := flushQueue (H := Fixture.platform) (world Fixture.signedIn);
     pool := pool Fixture.signedIn |}.

Definition flushedThenSignedOut : System :=
  settleFirst (Fixture.refusing 204)
    (park (perform (H := Fixture.platform) Logout (world flushed)) (pool flushed)).

(* ================================================================== *)
(** ** Proofs *)
(* ================================================================== *)

Section Proofs.
Context `{Platform}.

(** *** The session invariant *)

Lemma timers_held_empty (w : World) :
  consistent w -> refreshTimerRef (auth w) = None -> timers (browser w) = ∅.
Proof.
  intros [_ Htm] Href. apply map_eq. intros j. rewrite lookup_empty.
  destruct (timers (browser w) !! j) as [d|] eqn:Hj; [|done].
  destruct (Htm j d Hj) as [Hj' _]. congruence.
Qed.

Lemma timers_held_delete (w : World) (id : nat) :
  consistent w -> refreshTimerRef (auth w) = Some id ->
  delete id (timers (browser w)) = ∅.
Proof.
  intros [_ Htm] Href. apply map_eq. intros j. rewrite lookup_empty.
  destruct (decide (id = j)) as [->|Hne].
  - apply lookup_delete_eq.
  - rewrite lookup_delete_ne by done.
    destruct (timers (browser w) !! j) as [d|] eqn:Hj; [|done].
    destruct (Htm j d Hj) as [Hj' _]. congruence.
Qed.

Lemma consistent_clearRefreshTimer w :
  consistent w ->
  consistent (clearRefreshTimer w) /\
  refreshTimerRef (auth (clearRefreshTimer w)) = None /\
  timers (browser (clearRefreshTimer w)) = ∅.
Proof.
  intros Hw. unfold clearRefreshTimer.
  destruct (refreshTimerRef (auth w)) as [id|] eqn:Href.
  - pose proof (timers_held_delete w id Hw Href) as Hempty.
    destruct Hw as [Hau _].
    split; [|split]; [|reflexivity|exact Hempty].
    split; [exact Hau|]. cbn. rewrite Hempty. intros j d Hj.
    rewrite lookup_empty in Hj. discriminate.
  - split; [exact Hw|]. split; [exact Href|]. by apply timers_held_empty.
Qed.

Lemma consistent_cleared (w : World) : consistent w -> consistent (clearRefreshTimer w).
Proof. intros Hw. by apply consistent_clearRefreshTimer. Qed.

Lemma consistent_frame (w w' : World) :
  auth w' = auth w ->
  timers (browser w') = timers (browser w) ->
  (nextTimerId (browser w) <= nextTimerId (browser w'))%nat ->
  consistent w -> consistent w'.
Proof.
  intros Ha Ht Hn [Hau Htm]. split; rewrite Ha; [exact Hau|].
  rewrite Ht. intros id d Hid. destruct (Htm id d Hid). split; [done|lia].
Qed.

Lemma consistent_signed_out (w : World) :
  consistent w ->
  consistent (setUser None (setToken None w)).
Proof.
  intros [_ Htm]. split; [done|exact Htm].
Qed.

Lemma consistent_clearSession (w : World) :
  consistent w -> consistent (clearSession w).
Proof.
  intros Hw. unfold clearSession. apply consistent_clearRefreshTimer.
  eapply consistent_frame; [..|apply (consistent_signed_out w Hw)]; done.
Qed.

Lemma consistent_applyToken (accessToken : string) (w : World) :
  consistent w -> consistent (applyToken accessToken w).
Proof.
  intros Hw. unfold applyToken.
  destruct (decodeJwtPayload accessToken) as [| |payload]; try exact Hw.
  set (w1 := auditLogger.setUser _ (setUser _ (setToken _ w))).
  assert (Hw1 : consistent w1).
  { destruct Hw as [_ Htm]. split; [done|exact Htm]. }
  destruct (consistent_clearRefreshTimer w1 Hw1) as ([Hau _] & Href & Hempty).
  cbn zeta. destruct (0 <? _); [|by apply consistent_clearRefreshTimer].
  cbn. split; [exact Hau|]. cbn. rewrite Hempty. intros id d Hid.
  apply lookup_insert_Some in Hid as [[<- _]|[_ Hid]].
  - split; [reflexivity|lia].
  - rewrite lookup_empty in Hid. discriminate.
Qed.

Lemma consistent_applyToken_of (v : option Json) (w : World) :
  consistent w -> consistent (applyToken_of v w).
Proof.
  intros Hw. destruct v as [[]|]; try exact Hw. by apply consistent_applyToken.
Qed.

Lemma consistent_enqueue action target metadata (w : World) :
  consistent w -> consistent (enqueue action target metadata w).
Proof. apply consistent_frame; done. Qed.

Lemma consistent_logEffect (e : Effect) (w : World) :
  consistent w -> consistent (logEffect e w).
Proof. apply consistent_frame; done. Qed.

(** What [logout] does once the notification has settled. *)
Lemma consistent_logout_end (w : World) :
  consistent w ->
  consistent (auditLogger.resetSession
                (auditLogger.setUser None (setUser None (setToken None w)))).
Proof.
  intros Hw. eapply consistent_frame; [..|apply (consistent_signed_out w Hw)]; done.
Qed.

Lemma flushQueue_frame (w : World) :
  auth (flushQueue w) = auth w /\ browser (flushQueue w) = browser w.
Proof. unfold flushQueue, sendBatch. cbn. by repeat case_match. Qed.

Lemma sendBeaconFlush_frame (w : World) :
  auth (sendBeaconFlush w) = auth w /\ browser (sendBeaconFlush w) = browser w.
Proof. unfold sendBeaconFlush, sendBatch. cbn. by repeat case_match. Qed.

Lemma consistent_flushQueue (w : World) : consistent w -> consistent (flushQueue w).
Proof.
  destruct (flushQueue_frame w) as [Ha Hb].
  apply consistent_frame; [exact Ha|by rewrite Hb|by rewrite Hb].
Qed.

Lemma consistent_sendBeaconFlush (w : World) :
  consistent w -> consistent (sendBeaconFlush w).
Proof.
  destruct (sendBeaconFlush_frame w) as [Ha Hb].
  apply consistent_frame; [exact Ha|by rewrite Hb|by rewrite Hb].
Qed.

Lemma consistent_advance (dt : Z) (w : World) : consistent w -> consistent (advance dt w).
Proof. apply consistent_frame; done. Qed.

Lemma consistent_fired (id : nat) (w : World) :
  consistent w -> consistent (clearTimeout id w).
Proof.
  intros [Hau Htm]. split; [exact Hau|]. cbn. intros j d Hj.
  apply lookup_delete_Some in Hj as [_ Hj]. by apply (Htm j d).
Qed.

Lemma consistent_size (w : World) :
  consistent w -> (size (timers (browser w)) <= 1)%nat.
Proof.
  intros Hw. destruct (refreshTimerRef (auth w)) as [id|] eqn:Href.
  - pose proof (timers_held_delete w id Hw Href) as Hdel.
    destruct (timers (browser w) !! id) as [d|] eqn:Hid.
    + rewrite <- (insert_delete_id _ _ _ Hid), Hdel, insert_empty, map_size_singleton.
      done.
    + rewrite <- (delete_id _ _ Hid), Hdel, map_size_empty. lia.
  - rewrite (timers_held_empty w Hw Href), map_size_empty. lia.
Qed.

(** *** Calls keep an invariant wherever they yield *)

Section Always.

Variable I : World -> Prop.

Lemma always_andThen {A B : Type} (t : Async A) (f : A -> Task B) :
  always I t -> (forall a, preserves I (f a)) -> always I (andThen t f).
Proof.
  intros Ht Hf. induction t as [w a|w e|w p k IH]; cbn in *.
  - by apply Hf.
  - exact Ht.
  - destruct Ht as [Hw Hk]. split; [exact Hw|]. intros o w' Hw'. by apply IH, Hk.
Qed.

Lemma always_orElse {A : Type} (t : Async A) (h : JsError -> Task A) :
  always I t -> (forall e, preserves I (h e)) -> always I (orElse t h).
Proof.
  intros Ht Hh. induction t as [w a|w e|w p k IH]; cbn in *.
  - exact Ht.
  - by apply Hh.
  - destruct Ht as [Hw Hk]. split; [exact Hw|]. intros o w' Hw'. by apply IH, Hk.
Qed.

Lemma preserves_bind {A B : Type} (m : Task A) (f : A -> Task B) :
  preserves I m -> (forall a, preserves I (f a)) -> preserves I (bind m f).
Proof. intros Hm Hf w Hw. apply always_andThen; [by apply Hm|exact Hf]. Qed.

Lemma preserves_try_catch {A : Type} (m : Task A) (h : JsError -> Task A) :
  preserves I m -> (forall e, preserves I (h e)) -> preserves I (try_catch m h).
Proof. intros Hm Hh w Hw. apply always_orElse; [by apply Hm|exact Hh]. Qed.

Lemma preserves_ret {A : Type} (a : A) : preserves I (ret a).
Proof. intros w Hw. exact Hw. Qed.

Lemma preserves_throw {A : Type} (e : JsError) : preserves I (@throw A e).
Proof. intros w Hw. exact Hw. Qed.

Lemma preserves_exec (f : World -> World) :
  (forall w, I w -> I (f w)) -> preserves I (exec f).
Proof. intros Hf w Hw. by apply Hf. Qed.

Lemma preserves_await (p : Pending) : preserves I (await p).
Proof. intros w Hw. split; [exact Hw|]. intros o w' Hw'. exact Hw'. Qed.

Lemma preserves_fetch (req : Request.t) : preserves I (fetch req).
Proof.
  apply preserves_bind; [apply preserves_await|].
  intros [r|e]; [apply preserves_ret|apply preserves_throw].
Qed.

Lemma preserves_json (resp : Response.t) : preserves I (json resp).
Proof.
  apply preserves_bind; [apply preserves_await|].
  intros [r|e]; [apply preserves_ret|apply preserves_throw].
Qed.

End Always.

(** Walks through a call built from [bind], [try_catch], [exec] and the
    awaits, leaving one goal per synchronous statement. *)
Ltac walk :=
  repeat lazymatch goal with
  | |- preserves _ (bind _ _) => apply preserves_bind; [|intros ?]
  | |- preserves _ (try_catch _ _) => apply preserves_try_catch; [|intros ?]
  | |- preserves _ (ret _) => apply preserves_ret
  | |- preserves _ (throw _) => apply preserves_throw
  | |- preserves _ (await _) => apply preserves_await
  | |- preserves _ (fetch _) => apply preserves_fetch
  | |- preserves _ (json _) => apply preserves_json
  | |- preserves _ (exec _) => apply preserves_exec
  | |- preserves _ (if ?b then _ else _) => destruct b
  | |- preserves _ (match ?x with _ => _ end) => destruct x
  end.

Lemma preserves_hashEmail (I : World -> Prop) (email : string) :
  preserves I (hashEmail email).
Proof. unfold hashEmail. walk. Qed.

Lemma preserves_accessTokenOf (I : World -> Prop) (data : Json) :
  preserves I (accessTokenOf data).
Proof. unfold accessTokenOf. walk. Qed.

Lemma preserves_getCsrfToken (I : World -> Prop) : preserves I getCsrfToken.
Proof.
  intros w Hw. unfold getCsrfToken.
  destruct (find _ _); [|exact Hw]. destruct (decodeURIComponent _); exact Hw.
Qed.

Lemma preserves_messageOf (I : World -> Prop) (body : Json) :
  preserves I (messageOf body).
Proof. unfold messageOf. walk. Qed.

Create HintDb session.

#[local] Hint Resolve consistent_enqueue consistent_logEffect consistent_applyToken_of
  consistent_cleared consistent_clearSession consistent_flushQueue : session.

#[local] Hint Resolve preserves_hashEmail preserves_accessTokenOf preserves_getCsrfToken
  preserves_messageOf : session.

Lemma preserves_silentRefresh : preserves consistent silentRefresh.
Proof. unfold silentRefresh. walk; auto with session. Qed.

Lemma preserves_login (email password : string) :
  preserves consistent (login email password).
Proof.
  unfold login, auditLogger.logLogin, auditLogger.logLoginFailed.
  walk; auto with session.
Qed.

Lemma preserves_logout : preserves consistent logout.
Proof.
  apply preserves_bind; [walk; auto with session|]. intros _.
  apply preserves_bind; [walk; auto with session|]. intros _.
  apply preserves_bind; [walk|]. intros _ w Hw. by apply consistent_logout_end.
Qed.

Lemma preserves_apiFetch (path : string) (options : RequestInit) :
  preserves consistent (apiFetch mainConfig path options).
Proof.
  unfold apiFetch. apply preserves_bind; [intros w Hw; exact Hw|]. intros tok.
  apply preserves_bind.
  { case_bool_decide; walk; auto with session. }
  intros headers. walk; auto with session; intros w Hw; by apply consistent_logEffect.
Qed.

Lemma preserves_perform (c : Call) : preserves consistent (perform c).
Proof.
  destruct c; cbn [perform].
  - apply preserves_silentRefresh.
  - walk; auto with session.
  - apply preserves_login.
  - apply preserves_logout.
  - apply preserves_bind; [apply preserves_apiFetch|]. intros _. apply preserves_ret.
  - walk; intros w; apply consistent_enqueue.
  - walk; intros w; apply consistent_enqueue.
  - walk; intros w; apply consistent_enqueue.
  - walk; intros w; apply consistent_enqueue.
  - walk; auto with session.
Qed.

(** *** Every reachable state is consistent *)

Lemma stable_park (t : Async unit) (others : list Suspended) :
  always consistent t ->
  Forall (fun t => forall o w, consistent w -> always consistent (resume t o w)) others ->
  stable (park t others).
Proof.
  intros Ht Ho. destruct t as [w a|w e|w p k]; cbn in *.
  - by split.
  - by split.
  - destruct Ht as [Hw Hk]. split; [exact Hw|]. cbn. constructor; [exact Hk|exact Ho].
Qed.

Lemma stable_step (s s' : System) : stable s -> step s s' -> stable s'.
Proof.
  intros [Hw Hp] Hstep. destruct Hstep as [s c|s i t o Hi|s id delay Hid|s dt|s|s].
  - apply stable_park; [by apply preserves_perform|exact Hp].
  - apply stable_park.
    + rewrite Forall_lookup in Hp. by apply (Hp i t Hi).
    + by apply Forall_delete.
  - apply stable_park; [|exact Hp]. by apply preserves_silentRefresh, consistent_fired.
  - split; [by apply consistent_advance|exact Hp].
  - split; [by apply consistent_flushQueue|exact Hp].
  - split; [by apply consistent_sendBeaconFlush|exact Hp].
Qed.

Lemma reachable_stable (s : System) : reachable s -> stable s.
Proof.
  induction 1 as [t0 cookies beacon|s s' _ IH Hstep].
  - split; [|constructor]. split; [done|]. cbn. intros id d Hid.
    rewrite lookup_empty in Hid. discriminate.
  - by apply (stable_step s).
Qed.

Lemma reachable_consistent (s : System) : reachable s -> consistent (world s).
Proof. intros Hs. by apply reachable_stable. Qed.

Lemma reachable_settleFirst (net : forall p : Pending, Outcome p) (s : System) :
  reachable s -> reachable (settleFirst net s).
Proof.
  intros Hs. unfold settleFirst. destruct (pool s) as [|t others] eqn:Hpool; [exact Hs|].
  apply (reachable_step s); [exact Hs|].
  pose proof (step_settle s 0 t (net (pending t))) as Hstep.
  rewrite Hpool in Hstep. by apply Hstep.
Qed.

(** *** The refresh timer *)

Lemma refresh_due_iff (exp nowMs : Z) :
  0 < exp - nowMs / 1000 - REFRESH_BUFFER_SECONDS <-> nowMs + 60 * 1000 < exp * 1000.
Proof.
  unfold REFRESH_BUFFER_SECONDS.
  pose proof (Z.mul_div_le nowMs 1000 ltac:(lia)).
  pose proof (Z.mul_succ_div_gt nowMs 1000 ltac:(lia)).
  lia.
Qed.

Lemma applyToken_timer (accessToken : string) (payload : JwtPayload.t) (w : World) :
  consistent w ->
  decodeJwtPayload accessToken = PayloadObject payload ->
  let seconds := JwtPayload.exp payload - now (browser w) / 1000 - REFRESH_BUFFER_SECONDS in
  (0 < seconds ->
     timers (browser (applyToken accessToken w)) =
       {[ nextTimerId (browser w) := seconds * 1000 ]} /\
     refreshTimerRef (auth (applyToken accessToken w)) = Some (nextTimerId (browser w))) /\
  (seconds <= 0 ->
     timers (browser (applyToken accessToken w)) = ∅ /\
     refreshTimerRef (auth (applyToken accessToken w)) = None).
Proof.
  intros Hw Hdec seconds. unfold applyToken. rewrite Hdec.
  set (w1 := auditLogger.setUser _ (setUser _ (setToken _ w))).
  assert (Hw1 : consistent w1).
  { destruct Hw as [_ Htm]. split; [done|exact Htm]. }
  destruct (consistent_clearRefreshTimer w1 Hw1) as (_ & Href & Hempty).
  assert (Hnext : nextTimerId (browser (clearRefreshTimer w1)) = nextTimerId (browser w)).
  { unfold clearRefreshTimer. by case_match. }
  cbn zeta. change (now (browser w1)) with (now (browser w)). fold seconds.
  split; intros Hsec.
  - apply Z.ltb_lt in Hsec as Hb. rewrite Hb. cbn.
    rewrite Hempty, Hnext, insert_empty. done.
  - apply Z.ltb_ge in Hsec as Hb. rewrite Hb. done.
Qed.

(** C1.  In every reachable state at most one refresh timer is armed.
    Applying a token that decodes, with [seconds = exp - now - 60] ([now]
    in whole seconds): when [seconds] is positive, which is when the
    expiry is more than 60 seconds ahead, the timer table afterwards
    holds exactly one timer, fresh, with delay [seconds * 1000]
    milliseconds, held by [refreshTimerRef]; otherwise it is empty and
    the handle is cleared.  Either way a timer armed before is armed no
    more. *)
Theorem one_refresh_timer (s : System) :
  reachable s ->
  (size (timers (browser (world s))) <= 1)%nat /\
  forall (accessToken : string) (payload : JwtPayload.t),
    decodeJwtPayload accessToken = PayloadObject payload ->
    let w := world s in
    let w' := applyToken accessToken w in
    let seconds := JwtPayload.exp payload - now (browser w) / 1000 - 60 in
    (0 < seconds <-> now (browser w) + 60 * 1000 < JwtPayload.exp payload * 1000) /\
    (0 < seconds ->
       timers (browser w') = {[ nextTimerId (browser w) := seconds * 1000 ]} /\
       refreshTimerRef (auth w') = Some (nextTimerId (browser w)) /\
       size (timers (browser w')) = 1%nat) /\
    (seconds <= 0 ->
       timers (browser w') = ∅ /\ refreshTimerRef (auth w') = None) /\
    (forall id delay,
       timers (browser w) !! id = Some delay -> timers (browser w') !! id = None).
Proof.
  intros Hs. pose proof (reachable_consistent s Hs) as Hw.
  split; [by apply consistent_size|].
  intros accessToken payload Hdec w w' seconds.
  destruct (applyToken_timer accessToken payload w Hw Hdec) as [Harm Hskip].
  fold seconds in Harm, Hskip. fold w' in Harm, Hskip.
  split; [apply refresh_due_iff|]. split; [|split].
  - intros Hsec. destruct (Harm Hsec) as [Ht Hr]. split; [exact Ht|].
    split; [exact Hr|]. rewrite Ht. apply map_size_singleton.
  - exact Hskip.
  - intros id delay Hid. destruct Hw as [_ Htm]. destruct (Htm id delay Hid) as [_ Hlt].
    destruct (Z.lt_ge_cases 0 seconds) as [Hsec|Hsec].
    + destruct (Harm Hsec) as [-> _]. apply lookup_singleton_ne.
      unfold w. lia.
    + destruct (Hskip Hsec) as [-> _]. apply lookup_empty.
Qed.

(** *** Token and claims *)

Lemma isAuthenticated_true (w : World) :
  isAuthenticated w = true <-> token (auth w) <> None /\ user (auth w) <> None.
Proof.
  unfold isAuthenticated. rewrite andb_true_iff, !bool_decide_eq_true. done.
Qed.

Lemma applyToken_cases (accessToken : string) (w : World) :
  (applyToken accessToken w = w /\
     forall payload, decodeJwtPayload accessToken <> PayloadObject payload) \/
  exists payload,
    decodeJwtPayload accessToken = PayloadObject payload /\
    token (auth (applyToken accessToken w)) = Some accessToken /\
    user (auth (applyToken accessToken w)) = Some (jwtToAuthUser payload) /\
    currentUserId (audit (applyToken accessToken w)) = Some (JwtPayload.sub payload).
Proof.
  unfold applyToken. destruct (decodeJwtPayload accessToken) as [| |payload].
  - left. split; [done|]. intros p; discriminate.
  - left. split; [done|]. intros p; discriminate.
  - right. exists payload. split; [done|].
    unfold clearRefreshTimer. cbn. repeat case_match; done.
Qed.

Lemma logout_shape (w : World) :
  exists k,
    logout w = Await (clearRefreshTimer (auditLogger.logLogout w))
                 (PFetch (authRequest "/api/auth/logout" None)) k /\
    forall o w',
      k o w' = Resolved
                 (auditLogger.resetSession
                    (auditLogger.setUser None (setUser None (setToken None w')))) tt.
Proof.
  eexists. split; [reflexivity|]. intros [r|e] w'; reflexivity.
Qed.

(** C2.  In every state the page can reach, the access token is set exactly
    when the claims are, and that is what [isAuthenticated] reports.  The
    operations that change the session move both together: [applyToken]
    either leaves the world alone or sets both, the failure paths of
    [silentRefresh] ([clearSession]) clear both, and [logout] leaves both
    as they are until the notification settles and then clears both. *)
Theorem token_and_claims_together (s : System) :
  reachable s ->
  (token (auth (world s)) = None <-> user (auth (world s)) = None) /\
  (isAuthenticated (world s) = true <-> token (auth (world s)) <> None) /\
  (isAuthenticated (world s) = true <-> user (auth (world s)) <> None) /\
  (forall accessToken w,
     applyToken accessToken w = w \/
     (token (auth (applyToken accessToken w)) = Some accessToken /\
      is_Some (user (auth (applyToken accessToken w))))) /\
  (forall w, token (auth (clearSession w)) = None /\ user (auth (clearSession w)) = None) /\
  (forall w, exists w1 p k,
     logout w = Await w1 p k /\
     token (auth w1) = token (auth w) /\
     user (auth w1) = user (auth w) /\
     forall o w', exists w2,
       k o w' = Resolved w2 tt /\ token (auth w2) = None /\ user (auth w2) = None).
Proof.
  intros Hs. destruct (reachable_consistent s Hs) as [Hau _].
  split; [exact Hau|]. repeat split.
  - intros Ha. by apply isAuthenticated_true in Ha as [? _].
  - intros Ht. apply isAuthenticated_true. split; [exact Ht|]. by rewrite <- Hau.
  - intros Ha. by apply isAuthenticated_true in Ha as [_ ?].
  - intros Hu. apply isAuthenticated_true. split; [|exact Hu]. by rewrite Hau.
  - intros tok w. destruct (applyToken_cases tok w) as [[Hw _]|(p & _ & Ht & Hu & _)].
    + by left.
    + right. split; [exact Ht|]. by rewrite Hu.
  - unfold clearSession, clearRefreshTimer. cbn. by case_match.
  - unfold clearSession, clearRefreshTimer. cbn. by case_match.
  - intros w. destruct (logout_shape w) as (k & Hk & Hend).
    eexists _, _, k. split; [exact Hk|]. split; [|split].
    + unfold clearRefreshTimer. cbn. by case_match.
    + unfold clearRefreshTimer. cbn. by case_match.
    + intros o w'. eexists. split; [apply Hend|]. done.
Qed.

(** *** Logout *)

(** C3.  [logout] queues its audit event and cancels the refresh timer in
    the synchronous run that ends by issuing the notification: at that
    point no timer is armed and [refreshTimerRef] is empty.  However the
    notification settles, and whatever the page did meanwhile, the call
    then resolves with token and claims cleared, the logger's subject
    cleared and the audit session identifier replaced by a fresh UUID. *)
Theorem logout_clears_session (s : System) :
  reachable s ->
  exists w1 k,
    logout (world s) = Await w1 (PFetch (authRequest "/api/auth/logout" None)) k /\
    refreshTimerRef (auth w1) = None /\
    timers (browser w1) = ∅ /\
    eventQueue (audit w1) =
      (eventQueue (audit (world s)) ++ [buildEvent logout_ None [] (world s)])%list /\
    forall (o : Settled Response.t) (w' : World),
      exists w2,
        k o w' = Resolved w2 tt /\
        token (auth w2) = None /\
        user (auth w2) = None /\
        currentUserId (audit w2) = None /\
        sessionId (audit w2) = randomUUID (uuidCount (browser w')) /\
        uuidCount (browser w2) = S (uuidCount (browser w')).
Proof.
  intros Hs. pose proof (reachable_consistent s Hs) as Hw.
  destruct (logout_shape (world s)) as (k & Hk & Hend).
  eexists _, k. split; [exact Hk|].
  assert (Hq : consistent (auditLogger.logLogout (world s)))
    by (by apply consistent_enqueue).
  destruct (consistent_clearRefreshTimer _ Hq) as (_ & Href & Hempty).
  split; [exact Href|]. split; [exact Hempty|]. split.
  - unfold clearRefreshTimer. cbn. by case_match.
  - intros o w'. eexists. split; [apply Hend|]. done.
Qed.

(** *** Malformed tokens *)

Lemma malformed_decode (accessToken : string) :
  malformed accessToken -> decodeJwtPayload accessToken = PayloadNull.
Proof.
  unfold malformed, decodeJwtPayload. intros [Hlen|(seg & Hseg & Hbad)].
  - apply Nat.eqb_neq in Hlen. by rewrite Hlen.
  - destruct (negb _); [done|]. rewrite Hseg. cbn.
    destruct Hbad as [->|(text & -> & ->)]; done.
Qed.

(** C4.  On a token that is not three dot-separated segments, or whose
    payload segment does not decode to JSON, [applyToken] returns the
    world it was given: token, claims, timer handle and timer table, and
    the logger's subject, are all untouched. *)
Theorem applyToken_malformed_noop (accessToken : string) (w : World) :
  malformed accessToken -> applyToken accessToken w = w.
Proof.
  intros Hbad. unfold applyToken. by rewrite (malformed_decode _ Hbad).
Qed.

(** *** Roles *)

(** C5.  In every reachable state: unauthenticated, [hasRole] is false for
    every role; authenticated, [viewer] is granted whatever the claims
    role, [reviewer] exactly to the roles reviewer and admin, and [admin]
    exactly to the role admin. *)
Theorem hasRole_spec (s : System) :
  reachable s ->
  (isAuthenticated (world s) = false -> forall role, hasRole role (world s) = false) /\
  (isAuthenticated (world s) = true ->
   exists u, user (auth (world s)) = Some u /\
     hasRole "viewer" (world s) = true /\
     (hasRole "reviewer" (world s) = true <->
        AuthUser.role u = "reviewer" \/ AuthUser.role u = "admin") /\
     (hasRole "admin" (world s) = true <-> AuthUser.role u = "admin")).
Proof.
  intros Hs. destruct (reachable_consistent s Hs) as [Hau _]. split.
  - intros Hno role. unfold hasRole.
    destruct (user (auth (world s))) as [u|] eqn:Hu; [|done].
    assert (isAuthenticated (world s) = true); [|congruence].
    apply isAuthenticated_true. rewrite Hu. split; [|done].
    intros Ht. apply Hau in Ht. congruence.
  - intros Hyes. apply isAuthenticated_true in Hyes as [_ Hu].
    destruct (user (auth (world s))) as [u|] eqn:Hu'; [|done].
    exists u. split; [done|]. unfold hasRole. rewrite Hu'. cbn.
    split; [done|]. split.
    + rewrite orb_true_iff, !String.eqb_eq. done.
    + by rewrite String.eqb_eq.
Qed.

(** *** A 401 from the API *)

Lemma effects_logEffect (e : Effect) (w : World) :
  effects (browser (logEffect e w)) = (effects (browser w) ++ [e])%list.
Proof. reflexivity. Qed.

Lemma bind_run {A B : Type} (m : Task A) (f : A -> Task B) (w : World) :
  bind m f w = andThen (m w) f.
Proof. reflexivity. Qed.

Lemma getCsrfToken_cases (w : World) :
  getCsrfToken w = Rejected w URIError \/ exists v, getCsrfToken w = Resolved w v.
Proof.
  unfold getCsrfToken. destruct (find _ _) as [c|]; [|by right; eexists].
  destruct (decodeURIComponent _) as [v|]; [by right; eexists|by left].
Qed.

Lemma apiFetch_shape (config : ApiConfig) (path : string) (options : RequestInit)
    (w : World) :
  apiFetch config path options w = Rejected w URIError \/
  exists req k,
    apiFetch config path options w = Await w (PFetch req) k /\
    Request.url req = API_BASE ++ path /\
    forall (response : Response.t) (w' : World),
      Response.status response = 401 ->
      k (Fulfilled response) w' =
        Rejected (setLocationHref "/login" (handleLogout config w'))
          (Error "Session expired. Please log in again.").
Proof.
  unfold apiFetch. rewrite bind_run. cbn [andThen]. rewrite bind_run.
  case_bool_decide.
  - rewrite (bind_run getCsrfToken).
    destruct (getCsrfToken_cases w) as [->|[v ->]]; [by left|].
    right. cbn. eexists _, _. split; [reflexivity|]. split; [reflexivity|].
    intros response w' H401. cbn. rewrite H401. reflexivity.
  - right. cbn. eexists _, _. split; [reflexivity|]. split; [reflexivity|].
    intros response w' H401. cbn. rewrite H401. reflexivity.
Qed.

(** C6.  A call of [apiFetch] either fails before anything is sent (the
    CSRF cookie does not decode) or issues one request.  When the
    response to it has status 401, the call rejects at once, with no
    further request and without reading the body, with the error
    "Session expired. Please log in again.".  On the way it has run the
    injected logout callback, once, on the world it was resumed in, and
    then set the location to [/login], once: the world it leaves is the
    one the callback returned, with these two outward calls logged.  The
    callback is taken not to write the log of outward calls itself. *)
Theorem apiFetch_unauthorized (config : ApiConfig) (path : string)
    (options : RequestInit) (w : World) :
  (forall w0, effects (browser (onLogout config w0)) = effects (browser w0)) ->
  apiFetch config path options w = Rejected w URIError \/
  exists req k,
    apiFetch config path options w = Await w (PFetch req) k /\
    Request.url req = API_BASE ++ path /\
    forall (response : Response.t) (w' : World),
      Response.status response = 401 ->
      exists w2,
        k (Fulfilled response) w' =
          Rejected w2 (Error "Session expired. Please log in again.") /\
        w2 = setLocationHref "/login" (handleLogout config w') /\
        w2 = logEffect (SetLocationHref "/login")
               (onLogout config (logEffect CallLogoutHandler w')) /\
        auth w2 = auth (onLogout config (logEffect CallLogoutHandler w')) /\
        audit w2 = audit (onLogout config (logEffect CallLogoutHandler w')) /\
        effects (browser w2) =
          (effects (browser w') ++ [CallLogoutHandler; SetLocationHref "/login"])%list /\
        logoutCalls w2 = S (logoutCalls w') /\
        redirects w2 = (redirects w' ++ ["/login"])%list.
Proof.
  intros Hquiet.
  destruct (apiFetch_shape config path options w) as [Hrej|(req & k & Hk & Hurl & H')].
  { by left. }
  right. exists req, k. split; [exact Hk|]. split; [exact Hurl|].
  intros response w' H401.
  eexists. split; [by apply H'|]. split; [reflexivity|].
  split; [reflexivity|]. split; [reflexivity|]. split; [reflexivity|].
  assert (Heff : effects (browser (setLocationHref "/login" (handleLogout config w'))) =
                 (effects (browser w') ++ [CallLogoutHandler; SetLocationHref "/login"])%list).
  { unfold setLocationHref, handleLogout.
    rewrite effects_logEffect, Hquiet, effects_logEffect. by rewrite <- app_assoc. }
  split; [exact Heff|]. unfold logoutCalls, redirects. rewrite Heff. split.
  - rewrite List.filter_app, length_app. cbn. lia.
  - rewrite omap_app. reflexivity.
Qed.

(** *** E-mail addresses in audit events *)


Lemma allChars_append (P : ascii -> bool) (s1 s2 : string) :
  allChars P (s1 ++ s2) = allChars P s1 && allChars P s2.
Proof. induction s1 as [|c s1 IH]; simpl; [done|]. by rewrite IH, andb_assoc. Qed.





Lemma bytesOfHex_byteToHex (b : byte) (rest : string) :
  bytesOfHex (byteToHex b ++ rest) = Byte.to_N b :: bytesOfHex rest.
Proof. destruct b; reflexivity. Qed.

Lemma bytesOfHex_hexOfBytes (bs : list byte) :
  bytesOfHex (hexOfBytes bs) = map Byte.to_N bs.
Proof.
  induction bs as [|b bs IH]; [done|].
  change (hexOfBytes (b :: bs)) with (byteToHex b ++ hexOfBytes bs).
  by rewrite bytesOfHex_byteToHex, IH.
Qed.




Lemma logLogin_shape (email : string) (w : World) :
  exists k,
    auditLogger.logLogin email w =
      Await w (PDigest "SHA-256" (TextEncoder_encode (normalizeEmail email))) k /\
    forall (u : unit) (w' : World),
      k u w' = Resolved (push (eventOf (OpLogLogin email) w') w') tt.
Proof. eexists. split; [reflexivity|]. intros u w'. reflexivity. Qed.

Lemma logLoginFailed_shape (email : string) (w : World) :
  exists k,
    auditLogger.logLoginFailed email w =
      Await w (PDigest "SHA-256" (TextEncoder_encode (normalizeEmail email))) k /\
    forall (u : unit) (w' : World),
      k u w' = Resolved (push (eventOf (OpLogLoginFailed email) w') w') tt.
Proof. eexists. split; [reflexivity|]. intros u w'. reflexivity. Qed.




(** *** A failed login *)


(** *** Enqueue operations *)

Lemma push_appends (ev : AuditEvent.t) (w : World) :
  eventQueue (audit (push ev w)) = (eventQueue (audit w) ++ [ev])%list /\
  currentUserId (audit (push ev w)) = currentUserId (audit w) /\
  sessionId (audit (push ev w)) = sessionId (audit w) /\
  delivered (audit (push ev w)) = delivered (audit w) /\
  auth (push ev w) = auth w /\
  browser (push ev w) = browser w.
Proof. done. Qed.

(** C9, amended.  [logLogout], [logReviewSubmitted], [logAdminPageAccess],
    [logUnauthorizedAccess], [logTokenRefresh] and [logSearch] return at
    once having appended one event.  [logLogin] and [logLoginFailed]
    return a promise: they suspend on the digest and append their one
    event when it is there.  Appending leaves the events already queued,
    and everything else, as they were. *)
Theorem enqueue_appends_one_event (op : EnqueueOp) (w : World) :
  match op with
  | OpLogLogin email | OpLogLoginFailed email =>
      exists k,
        callOp op w =
          Await w (PDigest "SHA-256" (TextEncoder_encode (normalizeEmail email))) k /\
        forall (u : unit) (w' : World),
          k u w' = Resolved (push (eventOf op w') w') tt
  | _ => callOp op w = Resolved (push (eventOf op w) w) tt
  end /\
  forall (ev : AuditEvent.t) (w0 : World),
    eventQueue (audit (push ev w0)) = (eventQueue (audit w0) ++ [ev])%list /\
    currentUserId (audit (push ev w0)) = currentUserId (audit w0) /\
    sessionId (audit (push ev w0)) = sessionId (audit w0) /\
    delivered (audit (push ev w0)) = delivered (audit w0) /\
    auth (push ev w0) = auth w0 /\
    browser (push ev w0) = browser w0.
Proof.
  split; [|apply push_appends].
  destruct op; try reflexivity.
  - apply logLogin_shape.
  - apply logLoginFailed_shape.
Qed.

(** *** A refresh with a token that does not decode *)

(** C10.  When [silentRefresh] gets an OK response whose [accessToken]
    does not decode to a payload object, the session is neither updated
    nor cleared (React state, timers and the logger's subject stay as
    they were when the body arrived) and one event of action
    [token_refresh] is appended to the audit queue all the same,
    attributed to the subject and the audit session as they were. *)
Theorem refresh_audited_without_transition (w : World) :
  exists k,
    silentRefresh w = Await w (PFetch (authRequest "/api/auth/refresh" None)) k /\
    forall (response : Response.t) (w1 : World),
      Response.ok response = true ->
      exists k2,
        k (Fulfilled response) w1 = Await w1 (PJson response) k2 /\
        forall (data : Json) (v : option Json) (w2 : World),
          getProp data "accessToken" = Some v ->
          (forall accessToken payload,
             v = Some (JStr accessToken) ->
             decodeJwtPayload accessToken <> PayloadObject payload) ->
          exists w3 ev,
            k2 (Fulfilled data) w2 = Resolved w3 tt /\
            auth w3 = auth w2 /\
            browser w3 = browser w2 /\
            currentUserId (audit w3) = currentUserId (audit w2) /\
            sessionId (audit w3) = sessionId (audit w2) /\
            delivered (audit w3) = delivered (audit w2) /\
            eventQueue (audit w3) = (eventQueue (audit w2) ++ [ev])%list /\
            ev = buildEvent token_refresh None [] w2 /\
            AuditEvent.action ev = token_refresh /\
            AuditEvent.target ev = None /\
            AuditEvent.metadata ev = [] /\
            AuditEvent.userId ev = currentUserId (audit w2) /\
            AuditEvent.sessionId ev = sessionId (audit w2) /\
            AuditEvent.timestamp ev = toISOString (now (browser w2)) /\
            AuditEvent.correlationId ev = SESSION_CORRELATION_ID.
Proof.
  eexists. split; [reflexivity|]. intros response w1 Hok. cbn. rewrite Hok.
  eexists. split; [reflexivity|]. intros data v w2 Hprop Hbad. cbn.
  unfold accessTokenOf. rewrite Hprop. cbn.
  assert (Hsame : applyToken_of v w2 = w2).
  { destruct v as [[| | |accessToken| |]|]; try reflexivity.
    destruct (applyToken_cases accessToken w2) as [[Hsame _]|(p & Hp & _)]; [done|].
    by destruct (Hbad accessToken p). }
  rewrite Hsame. eexists _, _. split; [reflexivity|]. repeat split.
Qed.

(* ------------------------------------------------------------------ *)
(** *** Further properties of the code *)
(* ------------------------------------------------------------------ *)


(** *** Roles are ordered *)

Lemma hasRole_admin_all (w : World) (role : UserRole) :
  hasRole "admin" w = true -> hasRole role w = true.
Proof.
  unfold hasRole. destruct (user (auth w)) as [u|]; [|done]. cbn.
  intros Hadmin. rewrite Hadmin, orb_true_r. by repeat case_match.
Qed.

(** X1.  The role checks are ordered: whoever passes the check for admin
    passes the check for every role, whoever passes the check for
    reviewer passes the one for viewer, and a role name other than
    viewer and reviewer is checked the way admin is. *)
Theorem hasRole_ordered (w : World) :
  (hasRole "admin" w = true -> forall role, hasRole role w = true) /\
  (hasRole "reviewer" w = true -> hasRole "viewer" w = true) /\
  (forall role, role <> "viewer" -> role <> "reviewer" ->
     hasRole role w = hasRole "admin" w).
Proof.
  split; [intros Hadmin role; by apply hasRole_admin_all|].
  unfold hasRole. destruct (user (auth w)) as [u|]; [|done]. cbn. split.
  - done.
  - intros role Hv Hr. apply String.eqb_neq in Hv, Hr. by rewrite Hv, Hr.
Qed.

(** *** The CDN allow-list *)

Lemma prefix_app (p s : string) :
  String.prefix p s = true <-> exists rest, s = p ++ rest.
Proof.
  revert s. induction p as [|a p IH]; intros s.
  - split; [by exists s|]. intros _. by destruct s.
  - destruct s as [|b s]; simpl.
    { split; [done|]. intros [r Hr]. discriminate Hr. }
    destruct (ascii_dec a b) as [->|Hne].
    + rewrite IH. split; intros [r Hr]; exists r.
      * by rewrite Hr.
      * by injection Hr.
    + split; [done|]. intros [r Hr]. injection Hr as Hab _. congruence.
Qed.

Lemma afterPrefix_Some (p s rest : string) :
  afterPrefix p s = Some rest <-> s = p ++ rest.
Proof.
  revert s. induction p as [|a p IH]; intros s; simpl.
  - split; [by intros [= ->]|by intros ->].
  - destruct s as [|b s]; [done|].
    destruct (Ascii.eqb_spec a b) as [->|Hne].
    + rewrite IH. split; [by intros ->|by intros [= ->]].
    + split; [done|]. intros [= Hab _]. congruence.
Qed.

Lemma matchCdnHost_spec (s : string) :
  matchCdnHost s = true <->
  exists host rest,
    s = host ++ CDN_SUFFIX ++ rest /\ host <> "" /\ allChars isHostChar host = true.
Proof.
  induction s as [|c s IH]; cbn [matchCdnHost].
  - split; [done|]. intros (host & rest & Hs & Hne & _).
    destruct host; [done|discriminate].
  - rewrite andb_true_iff, orb_true_iff, IH, prefix_app. split.
    + intros [Hc [[rest ->]|(host & rest & -> & Hne & Hall)]].
      * exists (String c ""), rest. cbn. by rewrite Hc.
      * exists (String c host), rest. cbn. by rewrite Hc, Hall.
    + intros (host & rest & Hs & Hne & Hall).
      destruct host as [|d host]; [done|]. cbn in Hs, Hall.
      injection Hs as <- ->. apply andb_true_iff in Hall as [Hd Hall].
      split; [done|]. destruct host as [|e host].
      * left. by exists rest.
      * right. by exists (String e host), rest.
Qed.

Lemma allChars_impl (P Q : ascii -> bool) (s : string) :
  (forall c, P c = true -> Q c = true) -> allChars P s = true -> allChars Q s = true.
Proof.
  intros HPQ. induction s as [|c s IH]; [done|]. cbn.
  rewrite !andb_true_iff. intros [Hc Hs]. split; [by apply HPQ|by apply IH].
Qed.

(** X2.  [isValidCdnUrl] accepts exactly the URLs that start with
    https://, go on with a non-empty run of letters, digits, underscores,
    dots and hyphens, and then with .cdn.imdb-lite.com/ .  So no slash,
    at sign, colon, question mark or hash can stand before the
    allow-listed domain. *)
Theorem isValidCdnUrl_spec (url : string) :
  isValidCdnUrl url = true <->
  exists host rest,
    url = "https://" ++ host ++ ".cdn.imdb-lite.com/" ++ rest /\
    host <> "" /\
    allChars isHostChar host = true /\
    lacksChar "/" host = true /\ lacksChar "@" host = true /\
    lacksChar ":" host = true /\ lacksChar "?" host = true /\
    lacksChar "#" host = true.
Proof.
  unfold isValidCdnUrl. split.
  - destruct (afterPrefix "https://" url) as [s|] eqn:Hs; [|done].
    apply afterPrefix_Some in Hs as ->. intros Hm.
    apply matchCdnHost_spec in Hm as (host & rest & -> & Hne & Hall).
    exists host, rest. split; [done|]. split; [done|]. split; [done|].
    repeat split; unfold lacksChar; apply (allChars_impl isHostChar); try done;
      intros c Hc; cbn beta;
      match goal with
      | |- negb (Ascii.eqb c ?d) = true => destruct (Ascii.eqb_spec c d) as [->|]; done
      end.
  - intros (host & rest & -> & Hne & Hall & _).
    assert (Hs : afterPrefix "https://" ("https://" ++ host ++ ".cdn.imdb-lite.com/" ++ rest)
                 = Some (host ++ ".cdn.imdb-lite.com/" ++ rest)) by by apply afterPrefix_Some.
    rewrite Hs. apply matchCdnHost_spec. by exists host, rest.
Qed.

(** X3.  [getCdnUrlOrPlaceholder] returns the placeholder for a URL the
    allow-list rejects, and otherwise the URL itself, which is then an
    https URL of a host under cdn.imdb-lite.com. *)
Theorem getCdnUrlOrPlaceholder_allowlisted (url placeholder : string) :
  (isValidCdnUrl url = false /\ getCdnUrlOrPlaceholder url placeholder = placeholder) \/
  (getCdnUrlOrPlaceholder url placeholder = url /\
   exists host rest,
     url = "https://" ++ host ++ ".cdn.imdb-lite.com/" ++ rest /\
     host <> "" /\ allChars isHostChar host = true).
Proof.
  unfold getCdnUrlOrPlaceholder. destruct (isValidCdnUrl url) eqn:Hvalid; [right|by left].
  split; [done|]. unfold isValidCdnUrl in Hvalid.
  destruct (afterPrefix "https://" url) as [s|] eqn:Hs; [|done].
  apply afterPrefix_Some in Hs as ->.
  apply matchCdnHost_spec in Hvalid as (host & rest & -> & Hne & Hall).
  by exists host, rest.
Qed.

(** *** Hexadecimal digests *)

Lemma to_N_inj (b1 b2 : byte) : Byte.to_N b1 = Byte.to_N b2 -> b1 = b2.
Proof.
  intros Heq. pose proof (Byte.of_to_N b1) as H1. rewrite Heq, Byte.of_to_N in H1.
  by injection H1.
Qed.

(** X4.  Writing a digest in hexadecimal loses nothing: two byte arrays
    with the same rendering are the same array. *)
Theorem hexOfBytes_injective (bs1 bs2 : list byte) :
  hexOfBytes bs1 = hexOfBytes bs2 -> bs1 = bs2.
Proof.
  intros Heq. apply (f_equal bytesOfHex) in Heq. rewrite !bytesOfHex_hexOfBytes in Heq.
  revert bs2 Heq. induction bs1 as [|b1 bs1 IH]; intros [|b2 bs2] Heq; try done.
  injection Heq as Hb Hbs. f_equal; [by apply to_N_inj|by apply IH].
Qed.

(** *** Which part of a token is read *)

Lemma append_cons (c : ascii) (s t : string) : String c s ++ t = String c (s ++ t).
Proof. reflexivity. Qed.

Lemma append_empty (s : string) : s ++ "" = s.
Proof. induction s as [|c s IH]; [done|]. by rewrite append_cons, IH. Qed.

Lemma append_snoc (cur : string) (c : ascii) (a : string) :
  (cur ++ String c "") ++ a = cur ++ String c a.
Proof. induction cur as [|d cur IH]; [done|]. by rewrite !append_cons, IH. Qed.

Lemma split_from_last (sep : ascii) (cur a : string) :
  lacksChar sep a = true -> split_from sep cur a = [cur ++ a].
Proof.
  revert cur. induction a as [|c a IH]; intros cur Hno.
  - by rewrite append_empty.
  - unfold lacksChar in Hno. simpl in Hno. apply andb_true_iff in Hno as [Hc Ha].
    apply negb_true_iff in Hc. simpl. by rewrite Hc, (IH _ Ha), append_snoc.
Qed.

Lemma split_from_segment (sep : ascii) (cur a rest : string) :
  lacksChar sep a = true ->
  split_from sep cur (a ++ String sep rest) = (cur ++ a) :: split_from sep "" rest.
Proof.
  revert cur. induction a as [|c a IH]; intros cur Hno.
  - change ("" ++ String sep rest) with (String sep rest). simpl.
    by rewrite Ascii.eqb_refl, append_empty.
  - unfold lacksChar in Hno. simpl in Hno. apply andb_true_iff in Hno as [Hc Ha].
    apply negb_true_iff in Hc. rewrite append_cons. simpl.
    by rewrite Hc, (IH _ Ha), append_snoc.
Qed.

Lemma split_three (header payload signature : string) :
  lacksChar "." header = true -> lacksChar "." payload = true ->
  lacksChar "." signature = true ->
  split "." (header ++ "." ++ payload ++ "." ++ signature) = [header; payload; signature].
Proof.
  intros Hh Hp Hs. unfold split.
  change (header ++ "." ++ payload ++ "." ++ signature)
    with (header ++ String "." (payload ++ String "." signature)).
  rewrite (split_from_segment _ _ _ _ Hh), (split_from_segment _ _ _ _ Hp),
    (split_from_last _ _ _ Hs). done.
Qed.

(** X5.  Of a token of three dot-separated segments [decodeJwtPayload]
    reads the middle one only, and reads it as base64url: two tokens
    whose payload segments agree once every - is replaced by + and every
    _ by / decode alike, whatever their headers and signatures are. *)
Theorem decodeJwtPayload_reads_payload_only
    (header header' payload payload' signature signature' : string) :
  lacksChar "." header = true -> lacksChar "." header' = true ->
  lacksChar "." payload = true -> lacksChar "." payload' = true ->
  lacksChar "." signature = true -> lacksChar "." signature' = true ->
  replaceAll "_" "/" (replaceAll "-" "+" payload) =
    replaceAll "_" "/" (replaceAll "-" "+" payload') ->
  decodeJwtPayload (header ++ "." ++ payload ++ "." ++ signature) =
  decodeJwtPayload (header' ++ "." ++ payload' ++ "." ++ signature').
Proof.
  intros Hh Hh' Hp Hp' Hs Hs' Heq. unfold decodeJwtPayload.
  rewrite (split_three _ _ _ Hh Hp Hs), (split_three _ _ _ Hh' Hp' Hs'). cbn.
  by rewrite Heq.
Qed.

(** *** The ways a silent refresh ends *)

Lemma silentRefresh_shape (w : World) :
  exists k,
    silentRefresh w = Await w (PFetch (authRequest "/api/auth/refresh" None)) k /\
    (forall e w1, k (RejectedWith e) w1 = Resolved (clearSession w1) tt) /\
    (forall response w1,
       Response.ok response = false ->
       k (Fulfilled response) w1 = Resolved (clearSession w1) tt) /\
    (forall response w1,
       Response.ok response = true ->
       exists k2,
         k (Fulfilled response) w1 = Await w1 (PJson response) k2 /\
         (forall e w2, k2 (RejectedWith e) w2 = Resolved (clearSession w2) tt) /\
         (forall data w2,
            getProp data "accessToken" = None ->
            k2 (Fulfilled data) w2 = Resolved (clearSession w2) tt) /\
         (forall data v w2,
            getProp data "accessToken" = Some v ->
            k2 (Fulfilled data) w2 =
              Resolved (auditLogger.logTokenRefresh (applyToken_of v w2)) tt)).
Proof.
  eexists. split; [reflexivity|]. split; [done|]. split.
  - intros response w1 Hok. cbn. by rewrite Hok.
  - intros response w1 Hok. cbn. rewrite Hok. eexists. split; [reflexivity|].
    split; [done|]. split.
    + intros data w2 Hprop. cbn. unfold accessTokenOf. by rewrite Hprop.
    + intros data v w2 Hprop. cbn. unfold accessTokenOf. by rewrite Hprop.
Qed.

(** X6.  [silentRefresh] never rejects: whatever the network answers, the
    call resolves, after the refresh request alone or after the request
    and one reading of the response body. *)
Theorem silentRefresh_never_rejects (net : forall p : Pending, Outcome p) (w : World) :
  exists w' requests,
    runWith net (silentRefresh w) = (w', inr tt, requests) /\
    (requests = [PFetch (authRequest "/api/auth/refresh" None)] \/
     exists response,
       requests = [PFetch (authRequest "/api/auth/refresh" None); PJson response]).
Proof.
  destruct (silentRefresh_shape w) as (k & -> & Hnet & Hrefused & Hok).
  cbn [runWith]. destruct (net (PFetch (authRequest "/api/auth/refresh" None))) as [r|e].
  - destruct (Response.ok r) eqn:Hr.
    + destruct (Hok r w Hr) as (k2 & -> & Hbody & Hnull & Hdata). cbn [runWith].
      destruct (net (PJson r)) as [data|e].
      * destruct (getProp data "accessToken") as [v|] eqn:Hprop.
        -- rewrite (Hdata data v w Hprop). cbn. eexists _, _. split; [done|]. right. by exists r.
        -- rewrite (Hnull data w Hprop). cbn. eexists _, _. split; [done|]. right. by exists r.
      * rewrite Hbody. cbn. eexists _, _. split; [done|]. right. by exists r.
    + rewrite (Hrefused r w Hr). cbn. eexists _, _. split; [done|]. by left.
  - rewrite Hnet. cbn. eexists _, _. split; [done|]. by left.
Qed.

(** X7.  When the refresh request fails or is answered with a status
    outside 200..299, or when the body of an OK answer cannot be read or
    is null, [silentRefresh] resolves with the session cleared: token,
    claims, the logger's subject and the timer handle are null, the
    timer that was held is disarmed, and nothing is added to the audit
    queue. *)
Theorem silentRefresh_failure_clears (w : World) :
  exists k,
    silentRefresh w = Await w (PFetch (authRequest "/api/auth/refresh" None)) k /\
    (forall (o : Settled Response.t) (w1 : World),
       match o with
       | RejectedWith _ => True
       | Fulfilled response => Response.ok response = false
       end ->
       exists w2,
         k o w1 = Resolved w2 tt /\
         token (auth w2) = None /\ user (auth w2) = None /\
         currentUserId (audit w2) = None /\
         refreshTimerRef (auth w2) = None /\
         (forall id, refreshTimerRef (auth w1) = Some id -> timers (browser w2) !! id = None) /\
         eventQueue (audit w2) = eventQueue (audit w1) /\
         delivered (audit w2) = delivered (audit w1)) /\
    (forall (response : Response.t) (w1 : World),
       Response.ok response = true ->
       exists k2,
         k (Fulfilled response) w1 = Await w1 (PJson response) k2 /\
         forall (o : Settled Json) (w2 : World),
           match o with
           | RejectedWith _ => True
           | Fulfilled data => getProp data "accessToken" = None
           end ->
           exists w3,
             k2 o w2 = Resolved w3 tt /\
             token (auth w3) = None /\ user (auth w3) = None /\
             currentUserId (audit w3) = None /\
             refreshTimerRef (auth w3) = None /\
             (forall id, refreshTimerRef (auth w2) = Some id ->
                timers (browser w3) !! id = None) /\
             eventQueue (audit w3) = eventQueue (audit w2) /\
             delivered (audit w3) = delivered (audit w2)).
Proof.
  assert (Hclear : forall w0,
    token (auth (clearSession w0)) = None /\ user (auth (clearSession w0)) = None /\
    currentUserId (audit (clearSession w0)) = None /\
    refreshTimerRef (auth (clearSession w0)) = None /\
    (forall id, refreshTimerRef (auth w0) = Some id ->
                timers (browser (clearSession w0)) !! id = None) /\
    eventQueue (audit (clearSession w0)) = eventQueue (audit w0) /\
    delivered (audit (clearSession w0)) = delivered (audit w0)).
  { intros w0. unfold clearSession, clearRefreshTimer. cbn.
    destruct (refreshTimerRef (auth w0)) as [id|] eqn:Href; cbn; repeat split; try done.
    intros id' [= <-]. apply lookup_delete_eq. }
  destruct (silentRefresh_shape w) as (k & Hk & Hnet & Hrefused & Hok).
  exists k. split; [exact Hk|]. split.
  - intros [response|e] w1 Ho; exists (clearSession w1).
    + split; [by apply Hrefused|apply Hclear].
    + split; [apply Hnet|apply Hclear].
  - intros response w1 Hr. destruct (Hok response w1 Hr) as (k2 & Hk2 & Hbody & Hnull & _).
    exists k2. split; [exact Hk2|]. intros [data|e] w2 Ho; exists (clearSession w2).
    + split; [by apply Hnull|apply Hclear].
    + split; [apply Hbody|apply Hclear].
Qed.

(** X8.  When the refresh is answered OK with a token that decodes,
    [silentRefresh] resolves with the token and its claims set and with
    one token_refresh event queued; the event already names the subject
    of the new token and carries the audit session id in force. *)
Theorem silentRefresh_success_attributed (w : World) :
  exists k,
    silentRefresh w = Await w (PFetch (authRequest "/api/auth/refresh" None)) k /\
    forall (response : Response.t) (w1 : World),
      Response.ok response = true ->
      exists k2,
        k (Fulfilled response) w1 = Await w1 (PJson response) k2 /\
        forall (data : Json) (accessToken : string) (payload : JwtPayload.t) (w2 : World),
          getProp data "accessToken" = Some (Some (JStr accessToken)) ->
          decodeJwtPayload accessToken = PayloadObject payload ->
          exists w3 ev,
            k2 (Fulfilled data) w2 = Resolved w3 tt /\
            token (auth w3) = Some accessToken /\
            user (auth w3) = Some (jwtToAuthUser payload) /\
            eventQueue (audit w3) = (eventQueue (audit w2) ++ [ev])%list /\
            AuditEvent.action ev = token_refresh /\
            AuditEvent.userId ev = Some (JwtPayload.sub payload) /\
            AuditEvent.sessionId ev = sessionId (audit w2).
Proof.
  destruct (silentRefresh_shape w) as (k & Hk & _ & _ & Hok).
  exists k. split; [exact Hk|]. intros response w1 Hr.
  destruct (Hok response w1 Hr) as (k2 & Hk2 & _ & _ & Hdata).
  exists k2. split; [exact Hk2|]. intros data accessToken payload w2 Hprop Hdec.
  rewrite (Hdata _ _ _ Hprop). cbn [applyToken_of].
  destruct (applyToken_cases accessToken w2) as [[_ Hno]|(p & Hp & Ht & Hu & Hid)].
  { by destruct (Hno payload). }
  rewrite Hdec in Hp. injection Hp as <-.
  eexists _, (buildEvent token_refresh None [] (applyToken accessToken w2)).
  split; [reflexivity|]. split; [exact Ht|]. split; [exact Hu|]. split.
  - cbn. f_equal. unfold applyToken. rewrite Hdec. unfold clearRefreshTimer. cbn.
    by repeat case_match.
  - split; [done|]. split; [exact Hid|].
    cbn. unfold applyToken. rewrite Hdec. unfold clearRefreshTimer. cbn.
    by repeat case_match.
Qed.

Lemma applyToken_audit (accessToken : string) (w : World) :
  eventQueue (audit (applyToken accessToken w)) = eventQueue (audit w) /\
  delivered (audit (applyToken accessToken w)) = delivered (audit w) /\
  sessionId (audit (applyToken accessToken w)) = sessionId (audit w).
Proof.
  unfold applyToken, clearRefreshTimer. cbn. by repeat case_match.
Qed.

(** *** The ways a login ends *)

Lemma login_shape (email password : string) (w : World) :
  exists k,
    login email password w =
      Await w (PFetch (authRequest "/api/auth/login"
                         (Some (BodyJson [("email", email); ("password", password)])))) k /\
    (forall e w1, k (RejectedWith e) w1 = Rejected w1 e) /\
    (forall response w1,
       Response.ok response = true ->
       exists k2,
         k (Fulfilled response) w1 = Await w1 (PJson response) k2 /\
         (forall e w2, k2 (RejectedWith e) w2 = Rejected w2 e) /\
         (forall data w2,
            getProp data "accessToken" = None ->
            k2 (Fulfilled data) w2 = Rejected w2 TypeError) /\
         (forall data v w2,
            getProp data "accessToken" = Some v ->
            exists k3,
              k2 (Fulfilled data) w2 =
                Await (applyToken_of v w2)
                  (PDigest "SHA-256" (TextEncoder_encode (normalizeEmail email))) k3 /\
              forall (u : unit) (w3 : World),
                k3 u w3 =
                  Resolved (push (buildEvent login_ None
                                    [("emailHash", MetaString (emailDigestHex email))] w3)
                              w3) tt)).
Proof.
  eexists. split; [reflexivity|]. split; [done|].
  intros response w1 Hok. cbn. rewrite Hok. cbn. eexists. split; [reflexivity|].
  split; [done|]. split.
  - intros data w2 Hprop. cbn. unfold accessTokenOf. by rewrite Hprop.
  - intros data v w2 Hprop. cbn. unfold accessTokenOf. rewrite Hprop. cbn.
    eexists. split; [reflexivity|]. done.
Qed.

(** X9.  A login answered OK with a token that decodes applies the token
    before it waits for the digest of the e-mail address: at that await
    the caller is authenticated with the claims of the token and nothing
    has been queued.  After the digest the call resolves with one login
    event queued, attributed to the logger's subject of that moment,
    whose only metadata is the digest; session and browser are left as
    they are then. *)
Theorem login_success (email password : string) (w : World) :
  exists k,
    login email password w =
      Await w (PFetch (authRequest "/api/auth/login"
                         (Some (BodyJson [("email", email); ("password", password)])))) k /\
    forall (response : Response.t) (w1 : World),
      Response.ok response = true ->
      exists k2,
        k (Fulfilled response) w1 = Await w1 (PJson response) k2 /\
        forall (data : Json) (accessToken : string) (payload : JwtPayload.t) (w2 : World),
          getProp data "accessToken" = Some (Some (JStr accessToken)) ->
          decodeJwtPayload accessToken = PayloadObject payload ->
          exists k3,
            k2 (Fulfilled data) w2 =
              Await (applyToken accessToken w2)
                (PDigest "SHA-256" (TextEncoder_encode (normalizeEmail email))) k3 /\
            isAuthenticated (applyToken accessToken w2) = true /\
            user (auth (applyToken accessToken w2)) = Some (jwtToAuthUser payload) /\
            eventQueue (audit (applyToken accessToken w2)) = eventQueue (audit w2) /\
            forall (u : unit) (w3 : World),
              exists w4 ev,
                k3 u w3 = Resolved w4 tt /\
                eventQueue (audit w4) = (eventQueue (audit w3) ++ [ev])%list /\
                AuditEvent.action ev = login_ /\
                AuditEvent.userId ev = currentUserId (audit w3) /\
                AuditEvent.metadata ev = [("emailHash", MetaString (emailDigestHex email))] /\
                auth w4 = auth w3 /\ browser w4 = browser w3.
Proof.
  destruct (login_shape email password w) as (k & Hk & _ & Hok).
  exists k. split; [exact Hk|]. intros response w1 Hr.
  destruct (Hok response w1 Hr) as (k2 & Hk2 & _ & _ & Hdata).
  exists k2. split; [exact Hk2|]. intros data accessToken payload w2 Hprop Hdec.
  destruct (Hdata _ _ w2 Hprop) as (k3 & Hk3 & Hend).
  exists k3. split; [exact Hk3|].
  destruct (applyToken_cases accessToken w2) as [[_ Hno]|(p & Hp & Ht & Hu & _)].
  { by destruct (Hno payload). }
  rewrite Hdec in Hp. injection Hp as <-. split.
  { apply isAuthenticated_true. by rewrite Ht, Hu. }
  split; [exact Hu|]. split; [apply applyToken_audit|].
  intros u w3. eexists _, _. split; [apply Hend|]. done.
Qed.

(** X10.  A login answered OK whose body holds no token that decodes
    still resolves and still queues a login event, while the session is
    left as it was: the caller is told of a success although nobody has
    been signed in. *)
Theorem login_resolves_without_session (email password : string) (w : World) :
  exists k,
    login email password w =
      Await w (PFetch (authRequest "/api/auth/login"
                         (Some (BodyJson [("email", email); ("password", password)])))) k /\
    forall (response : Response.t) (w1 : World),
      Response.ok response = true ->
      exists k2,
        k (Fulfilled response) w1 = Await w1 (PJson response) k2 /\
        forall (data : Json) (v : option Json) (w2 : World),
          getProp data "accessToken" = Some v ->
          (forall accessToken payload,
             v = Some (JStr accessToken) ->
             decodeJwtPayload accessToken <> PayloadObject payload) ->
          exists k3,
            k2 (Fulfilled data) w2 =
              Await w2 (PDigest "SHA-256" (TextEncoder_encode (normalizeEmail email))) k3 /\
            forall (u : unit) (w3 : World),
              exists w4 ev,
                k3 u w3 = Resolved w4 tt /\
                eventQueue (audit w4) = (eventQueue (audit w3) ++ [ev])%list /\
                AuditEvent.action ev = login_ /\
                auth w4 = auth w3 /\ browser w4 = browser w3.
Proof.
  destruct (login_shape email password w) as (k & Hk & _ & Hok).
  exists k. split; [exact Hk|]. intros response w1 Hr.
  destruct (Hok response w1 Hr) as (k2 & Hk2 & _ & _ & Hdata).
  exists k2. split; [exact Hk2|]. intros data v w2 Hprop Hbad.
  destruct (Hdata _ _ w2 Hprop) as (k3 & Hk3 & Hend).
  assert (Hsame : applyToken_of v w2 = w2).
  { destruct v as [[| | |accessToken| |]|]; try reflexivity.
    destruct (applyToken_cases accessToken w2) as [[Hsame _]|(p & Hp & _)]; [done|].
    by destruct (Hbad accessToken p). }
  rewrite Hsame in Hk3. exists k3. split; [exact Hk3|].
  intros u w3. eexists _, _. split; [apply Hend|]. done.
Qed.

(** X11.  Failures of the transport are not turned into the generic
    login error.  When the login request itself is rejected, or the body
    of an OK answer cannot be read, [login] rejects with that very
    error, and with a TypeError when the body is null; in each case the
    world is left as the call found it when it was resumed. *)
Theorem login_transport_errors_pass_through (email password : string) (w : World) :
  exists k,
    login email password w =
      Await w (PFetch (authRequest "/api/auth/login"
                         (Some (BodyJson [("email", email); ("password", password)])))) k /\
    (forall (e : JsError) (w1 : World), k (RejectedWith e) w1 = Rejected w1 e) /\
    forall (response : Response.t) (w1 : World),
      Response.ok response = true ->
      exists k2,
        k (Fulfilled response) w1 = Await w1 (PJson response) k2 /\
        (forall (e : JsError) (w2 : World), k2 (RejectedWith e) w2 = Rejected w2 e) /\
        (forall (data : Json) (w2 : World),
           getProp data "accessToken" = None ->
           k2 (Fulfilled data) w2 = Rejected w2 TypeError).
Proof.
  destruct (login_shape email password w) as (k & Hk & Hnet & Hok).
  exists k. split; [exact Hk|]. split; [exact Hnet|]. intros response w1 Hr.
  destruct (Hok response w1 Hr) as (k2 & Hk2 & Hbody & Hnull & _).
  by exists k2.
Qed.

(** *** A later token replaces an earlier one *)

(** X12.  In a reachable state, a token that decodes, applied after any
    other token, leaves the session of the later token only: token,
    claims, logger subject and role checks are those of the later one,
    at most one timer is armed, and an armed timer has the delay computed
    from the expiry of the later token. *)
Theorem applyToken_replaces (s : System) (first second : string) (payload : JwtPayload.t) :
  reachable s ->
  decodeJwtPayload second = PayloadObject payload ->
  let w := applyToken second (applyToken first (world s)) in
  token (auth w) = Some second /\
  user (auth w) = Some (jwtToAuthUser payload) /\
  currentUserId (audit w) = Some (JwtPayload.sub payload) /\
  isAuthenticated w = true /\
  (hasRole "admin" w = true <-> JwtPayload.role payload = "admin") /\
  (size (timers (browser w)) <= 1)%nat /\
  (forall id delay, timers (browser w) !! id = Some delay ->
     delay = (JwtPayload.exp payload - now (browser (world s)) / 1000 - 60) * 1000).
Proof.
  intros Hs Hdec w. pose proof (reachable_consistent s Hs) as Hw0.
  pose proof (consistent_applyToken first _ Hw0) as Hw1.
  destruct (applyToken_cases second (applyToken first (world s)))
    as [[_ Hno]|(p & Hp & Ht & Hu & Hid)]; [by destruct (Hno payload)|].
  rewrite Hdec in Hp. injection Hp as <-. fold w in Ht, Hu, Hid.
  split; [exact Ht|]. split; [exact Hu|]. split; [exact Hid|]. split.
  { apply isAuthenticated_true. by rewrite Ht, Hu. }
  split.
  { unfold hasRole. rewrite Hu. cbn. by rewrite String.eqb_eq. }
  split; [by apply consistent_size, consistent_applyToken|].
  intros id delay Hlook.
  destruct (applyToken_timer second payload _ Hw1 Hdec) as [Harm Hskip].
  assert (Hnow : now (browser (applyToken first (world s))) = now (browser (world s))).
  { unfold applyToken, clearRefreshTimer. cbn. by repeat case_match. }
  rewrite Hnow in Harm, Hskip. fold w in Harm, Hskip.
  destruct (Z.lt_ge_cases 0
    (JwtPayload.exp payload - now (browser (world s)) / 1000 - REFRESH_BUFFER_SECONDS))
    as [Hpos|Hneg].
  - destruct (Harm Hpos) as [Htm _]. rewrite Htm in Hlook.
    apply lookup_singleton_Some in Hlook as [_ <-]. done.
  - destruct (Hskip Hneg) as [Htm _]. rewrite Htm, lookup_empty in Hlook. done.
Qed.


(** *** What [apiFetch] sends and how it reads the reply *)

Lemma apiFetch_cases (config : ApiConfig) (path : string) (options : RequestInit)
    (w : World) :
  let method := toUpperCase (default "GET" (init_method options)) in
  let token := getToken config w in
  let authorized :=
    withHeader (truthy token) "Authorization" ("Bearer " ++ default EmptyString token)
      (default ∅ (init_headers options)
         ∪ {[ "Content-Type" := "application/json";
              "X-Correlation-ID" := SESSION_CORRELATION_ID ]}) in
  (method ∈ MUTATING_METHODS /\ getCsrfToken w = Rejected w URIError /\
   apiFetch config path options w = Rejected w URIError) \/
  exists headers k,
    apiFetch config path options w =
      Await w (PFetch {| Request.url := API_BASE ++ path;
                         Request.method := method;
                         Request.headers := headers;
                         Request.credentials := "include";
                         Request.body := init_body options;
                         Request.signal := true;
                         Request.keepalive := false |}) k /\
    (((method ∉ MUTATING_METHODS) /\ headers = authorized) \/
     (method ∈ MUTATING_METHODS /\
      exists csrfToken, getCsrfToken w = Resolved w csrfToken /\
        headers = withHeader (truthy csrfToken) "X-XSRF-TOKEN"
                    (default EmptyString csrfToken) authorized)) /\
    (forall e w',
       k (RejectedWith e) w' =
         Rejected w' (Error (if isAbortError e
                             then "Request timed out. Please try again."
                             else "Network error. Please check your connection."))) /\
    (forall response w',
       let status := Response.status response in
       (status = 401 ->
        k (Fulfilled response) w' =
          Rejected (setLocationHref "/login" (handleLogout config w'))
            (Error "Session expired. Please log in again.")) /\
       (status = 403 ->
        k (Fulfilled response) w' =
          Rejected (setLocationHref "/unauthorized" w') (Error "Access denied.")) /\
       (500 <= status ->
        k (Fulfilled response) w' =
          Rejected (showErrorToast config "Something went wrong. Please try again later." w')
            (Error "Server error.")) /\
       (status <> 401 -> status <> 403 -> status < 500 -> Response.ok response = false ->
        exists k2,
          k (Fulfilled response) w' = Await w' (PJson response) k2 /\
          (forall e w'', k2 (RejectedWith e) w'' = Rejected w'' (ApiError status "Request failed")) /\
          (forall body w'',
             k2 (Fulfilled body) w'' =
               andThen (messageOf body w'') (fun message => throw (ApiError status message)))) /\
       (status = 204 -> k (Fulfilled response) w' = Resolved w' None) /\
       (Response.ok response = true -> status <> 204 ->
        exists k2,
          k (Fulfilled response) w' = Await w' (PJson response) k2 /\
          (forall e w'', k2 (RejectedWith e) w'' = Rejected w'' e) /\
          (forall data w'', k2 (Fulfilled data) w'' = Resolved w'' (Some data)))).
Proof.
  intros method token authorized.
  unfold apiFetch. rewrite bind_run. cbn [andThen]. rewrite bind_run.
  fold method. fold token. fold authorized.
  assert (Hcases :
    (method ∈ MUTATING_METHODS /\ getCsrfToken w = Rejected w URIError) \/
    exists headers,
      (((method ∉ MUTATING_METHODS) /\ headers = authorized) \/
       (method ∈ MUTATING_METHODS /\
        exists csrfToken, getCsrfToken w = Resolved w csrfToken /\
          headers = withHeader (truthy csrfToken) "X-XSRF-TOKEN"
                      (default EmptyString csrfToken) authorized)) /\
      (if bool_decide (method ∈ MUTATING_METHODS)
       then let* csrfToken := getCsrfToken in
            ret (withHeader (truthy csrfToken) "X-XSRF-TOKEN"
                   (default EmptyString csrfToken) authorized)
       else ret authorized) w = Resolved w headers).
  { case_bool_decide as Hm.
    - rewrite (bind_run getCsrfToken).
      destruct (getCsrfToken_cases w) as [Hc|[v Hc]]; [by left|].
      right. rewrite Hc. eexists. split; [|reflexivity]. right. split; [done|]. by exists v.
    - right. eexists. split; [|reflexivity]. by left. }
  destruct Hcases as [[Hm Hc]|(headers & Hheaders & Hrun)].
  { left. split; [done|]. split; [done|]. rewrite bool_decide_true by done.
    rewrite (bind_run getCsrfToken), Hc. reflexivity. }
  right. rewrite Hrun. cbn. exists headers. eexists. split; [reflexivity|].
  split; [exact Hheaders|]. split.
  { intros e w'. cbn. by destruct (isAbortError e). }
  intros response w'. cbn. unfold Response.ok.
  destruct response as [status]. cbn.
  split. { intros ->. reflexivity. }
  split. { intros ->. reflexivity. }
  split.
  { intros Hs. destruct (Z.eqb_spec status 401); [lia|].
    destruct (Z.eqb_spec status 403); [lia|].
    destruct (Z.leb_spec 500 status); [|lia]. reflexivity. }
  split.
  { intros H1 H3 Hs Hok. destruct (Z.eqb_spec status 401); [lia|].
    destruct (Z.eqb_spec status 403); [lia|].
    destruct (Z.leb_spec 500 status); [lia|]. rewrite Hok. cbn.
    eexists. split; [reflexivity|]. done. }
  split. { intros ->. reflexivity. }
  intros Hok H204. apply andb_true_iff in Hok as Hrange. destruct Hrange as [Hlo Hhi].
  apply Z.leb_le in Hlo, Hhi.
  destruct (Z.eqb_spec status 401); [lia|].
  destruct (Z.eqb_spec status 403); [lia|].
  destruct (Z.leb_spec 500 status); [lia|]. rewrite Hok. cbn.
  destruct (Z.eqb_spec status 204); [lia|].
  eexists. split; [reflexivity|]. done.
Qed.

Lemma authorized_lookup (token : option string) (headers : gmap string string) (key : string) :
  withHeader (truthy token) "Authorization" ("Bearer " ++ default EmptyString token)
    headers !! key =
  if truthy token && String.eqb key "Authorization"
  then Some ("Bearer " ++ default EmptyString token)
  else headers !! key.
Proof.
  unfold withHeader. destruct (truthy token); [|done]. cbn.
  destruct (String.eqb_spec key "Authorization") as [->|Hne].
  - by rewrite lookup_insert_eq.
  - by rewrite lookup_insert_ne.
Qed.

(** X13.  A call of [apiFetch] with a method outside POST, PUT, PATCH and
    DELETE never fails before the request is sent, whatever the cookies
    are, and adds no CSRF header: the request goes to the base URL
    followed by the path, with the upper-cased method, with credentials
    included and the caller's body, and its X-XSRF-TOKEN header is the
    caller's, if any. *)
Theorem apiFetch_safe_methods_skip_csrf (config : ApiConfig) (path : string)
    (options : RequestInit) (w : World) :
  toUpperCase (default "GET" (init_method options)) ∉ MUTATING_METHODS ->
  exists req k,
    apiFetch config path options w = Await w (PFetch req) k /\
    Request.url req = API_BASE ++ path /\
    Request.method req = toUpperCase (default "GET" (init_method options)) /\
    Request.credentials req = "include" /\
    Request.body req = init_body options /\
    Request.headers req !! "X-XSRF-TOKEN" =
      default ∅ (init_headers options) !! "X-XSRF-TOKEN".
Proof.
  intros Hsafe.
  destruct (apiFetch_cases config path options w)
    as [[Hm _]|(headers & k & Hcall & [[_ ->]|[Hm _]] & _)]; [done| |done].
  eexists _, k. split; [exact Hcall|]. repeat split. cbn.
  rewrite authorized_lookup, andb_false_r. by rewrite lookup_union_l.
Qed.

(** X14.  A call of [apiFetch] with one of the methods POST, PUT, PATCH and
    DELETE reads the CSRF cookie first.  When its value cannot be
    URI-decoded the call rejects with the URIError before anything is
    sent.  Otherwise the request carries the decoded value as
    X-XSRF-TOKEN, overriding the caller's header, unless there is no
    cookie or its value is empty, when the caller's header, if any, is
    left in place. *)
Theorem apiFetch_csrf_header (config : ApiConfig) (path : string)
    (options : RequestInit) (w : World) :
  toUpperCase (default "GET" (init_method options)) ∈ MUTATING_METHODS ->
  (getCsrfToken w = Rejected w URIError /\
   apiFetch config path options w = Rejected w URIError) \/
  exists csrfToken req k,
    getCsrfToken w = Resolved w csrfToken /\
    apiFetch config path options w = Await w (PFetch req) k /\
    Request.body req = init_body options /\
    Request.headers req !! "X-XSRF-TOKEN" =
      if truthy csrfToken then csrfToken
      else default ∅ (init_headers options) !! "X-XSRF-TOKEN".
Proof.
  intros Hmut.
  destruct (apiFetch_cases config path options w)
    as [(_ & Hc & Hrej)|(headers & k & Hcall & [[Hm _]|(_ & v & Hv & ->)] & _)];
    [by left|done|].
  right. eexists v, _, k. split; [exact Hv|]. split; [exact Hcall|]. split; [done|].
  cbn. unfold withHeader at 1. destruct (truthy v) eqn:Htruthy.
  - rewrite lookup_insert_eq. by destruct v.
  - rewrite authorized_lookup, andb_false_r. by rewrite lookup_union_l.
Qed.

(** X15.  A request [apiFetch] sends carries Authorization: Bearer followed
    by the token whenever the token provider returns a non-empty token,
    whatever header the caller passed; with no token, or an empty one,
    the caller's own Authorization header is sent unchanged.
    Content-Type and X-Correlation-ID, in contrast, are defaults only:
    a header of the caller with that name wins. *)
Theorem apiFetch_authorization_header (config : ApiConfig) (path : string)
    (options : RequestInit) (w : World) :
  apiFetch config path options w = Rejected w URIError \/
  exists req k,
    apiFetch config path options w = Await w (PFetch req) k /\
    (forall token, getToken config w = Some token -> token <> "" ->
       Request.headers req !! "Authorization" = Some ("Bearer " ++ token)) /\
    (getToken config w = None \/ getToken config w = Some "" ->
       Request.headers req !! "Authorization" =
         default ∅ (init_headers options) !! "Authorization") /\
    (forall key, key = "Content-Type" \/ key = "X-Correlation-ID" ->
       Request.headers req !! key =
         match default ∅ (init_headers options) !! key with
         | Some given => Some given
         | None => if String.eqb key "Content-Type" then Some "application/json"
                   else Some SESSION_CORRELATION_ID
         end).
Proof.
  destruct (apiFetch_cases config path options w)
    as [(_ & _ & Hrej)|(headers & k & Hcall & Hheaders & _)]; [by left|].
  right. eexists _, k. split; [exact Hcall|]. cbn.
  assert (Hlook : forall key, key <> "X-XSRF-TOKEN" ->
    headers !! key =
      if truthy (getToken config w) && String.eqb key "Authorization"
      then Some ("Bearer " ++ default EmptyString (getToken config w))
      else (default ∅ (init_headers options)
              ∪ {[ "Content-Type" := "application/json";
                   "X-Correlation-ID" := SESSION_CORRELATION_ID ]}) !! key).
  { intros key Hkey. destruct Hheaders as [[_ ->]|(_ & v & _ & ->)].
    - apply authorized_lookup.
    - unfold withHeader at 1. destruct (truthy v).
      + rewrite lookup_insert_ne by done. apply authorized_lookup.
      + apply authorized_lookup. }
  split; [|split].
  - intros token Htoken Hne. rewrite Hlook, Htoken by done.
    destruct token; [done|]. reflexivity.
  - intros Hnone. rewrite Hlook by done.
    replace (truthy (getToken config w)) with false by (by destruct Hnone as [->| ->]).
    by rewrite lookup_union_l.
  - intros key Hkey. rewrite Hlook by (by destruct Hkey as [->| ->]).
    replace (String.eqb key "Authorization") with false by (by destruct Hkey as [->| ->]).
    rewrite andb_false_r, lookup_union.
    destruct (default ∅ (init_headers options) !! key) as [given|]; [by destruct (_ !! key)|].
    destruct Hkey as [->| ->]; reflexivity.
Qed.

(** X16.  On a response with status 403 [apiFetch] rejects at once with
    Access denied, without reading the body; it sets the location to
    /unauthorized once, does not call the logout callback and leaves the
    session and the audit log alone. *)
Theorem apiFetch_forbidden (config : ApiConfig) (path : string)
    (options : RequestInit) (w : World) :
  apiFetch config path options w = Rejected w URIError \/
  exists req k,
    apiFetch config path options w = Await w (PFetch req) k /\
    forall (response : Response.t) (w' : World),
      Response.status response = 403 ->
      exists w2,
        k (Fulfilled response) w' = Rejected w2 (Error "Access denied.") /\
        effects (browser w2) = (effects (browser w') ++ [SetLocationHref "/unauthorized"])%list /\
        logoutCalls w2 = logoutCalls w' /\
        redirects w2 = (redirects w' ++ ["/unauthorized"])%list /\
        auth w2 = auth w' /\ audit w2 = audit w'.
Proof.
  destruct (apiFetch_cases config path options w)
    as [(_ & _ & Hrej)|(headers & k & Hcall & _ & _ & Hreply)]; [by left|].
  right. eexists _, k. split; [exact Hcall|]. intros response w' H403.
  destruct (Hreply response w') as (_ & Hk & _).
  eexists. split; [by apply Hk|]. split; [reflexivity|].
  unfold logoutCalls, redirects, setLocationHref. rewrite effects_logEffect.
  split; [|split; [|done]].
  - rewrite List.filter_app, length_app. cbn. lia.
  - rewrite omap_app. reflexivity.
Qed.

(** X17.  On a response with a status of 500 or more [apiFetch] rejects at
    once with the fixed error Server error, without reading the body:
    nothing of the response reaches the caller.  On the way it calls the
    injected toast callback once, with a fixed message, leaving the world
    that callback returned, and neither calls the logout callback nor
    redirects.  The toast callback is taken not to
    write the log of outward calls itself. *)
Theorem apiFetch_server_error (config : ApiConfig) (path : string)
    (options : RequestInit) (w : World) :
  (forall message w0, effects (browser (onError config message w0)) = effects (browser w0)) ->
  apiFetch config path options w = Rejected w URIError \/
  exists req k,
    apiFetch config path options w = Await w (PFetch req) k /\
    forall (response : Response.t) (w' : World),
      500 <= Response.status response ->
      exists w2,
        k (Fulfilled response) w' = Rejected w2 (Error "Server error.") /\
        w2 = showErrorToast config "Something went wrong. Please try again later." w' /\
        effects (browser w2) =
          (effects (browser w') ++
             [CallErrorToast "Something went wrong. Please try again later."])%list /\
        logoutCalls w2 = logoutCalls w' /\
        redirects w2 = redirects w' /\
        w2 = onError config "Something went wrong. Please try again later."
               (logEffect (CallErrorToast "Something went wrong. Please try again later.")
                  w').
Proof.
  intros Hquiet.
  destruct (apiFetch_cases config path options w)
    as [(_ & _ & Hrej)|(headers & k & Hcall & _ & _ & Hreply)]; [by left|].
  right. eexists _, k. split; [exact Hcall|]. intros response w' H500.
  destruct (Hreply response w') as (_ & _ & Hk & _).
  eexists. split; [by apply Hk|]. split; [reflexivity|].
  assert (Heff : effects (browser (showErrorToast config
                    "Something went wrong. Please try again later." w')) =
                 (effects (browser w') ++
                    [CallErrorToast "Something went wrong. Please try again later."])%list).
  { unfold showErrorToast. by rewrite Hquiet, effects_logEffect. }
  split; [exact Heff|]. unfold logoutCalls, redirects. rewrite Heff.
  split; [|split; [|reflexivity]].
  - rewrite List.filter_app, length_app. cbn. lia.
  - rewrite omap_app. cbn. by rewrite app_nil_r.
Qed.

(** X18.  On any other response outside 200..299 [apiFetch] reads the body
    and rejects with an ApiError carrying the status.  Its message is the
    body's message; it is Request failed when the body cannot be read,
    is not an object, or has no message or a null one.  A body that is
    the JSON value null makes the call reject with a TypeError
    instead. *)
Theorem apiFetch_client_error (config : ApiConfig) (path : string)
    (options : RequestInit) (w : World) :
  apiFetch config path options w = Rejected w URIError \/
  exists req k,
    apiFetch config path options w = Await w (PFetch req) k /\
    forall (response : Response.t) (w' : World),
      let status := Response.status response in
      Response.ok response = false ->
      status <> 401 -> status <> 403 -> status < 500 ->
      exists k2,
        k (Fulfilled response) w' = Await w' (PJson response) k2 /\
        (forall (e : JsError) (w2 : World),
           k2 (RejectedWith e) w2 = Rejected w2 (ApiError status "Request failed")) /\
        (forall (fields : list (string * Json)) (w2 : World),
           k2 (Fulfilled (JObj fields)) w2 =
             Rejected w2 (ApiError status
               match assoc "message" fields with
               | None | Some JNull => "Request failed"
               | Some (JStr message) => message
               | Some v => toErrorMessage v
               end)) /\
        (forall (body : Json) (w2 : World),
           (forall fields, body <> JObj fields) -> body <> JNull ->
           k2 (Fulfilled body) w2 = Rejected w2 (ApiError status "Request failed")) /\
        (forall (w2 : World), k2 (Fulfilled JNull) w2 = Rejected w2 TypeError).
Proof.
  destruct (apiFetch_cases config path options w)
    as [(_ & _ & Hrej)|(headers & k & Hcall & _ & _ & Hreply)]; [by left|].
  right. eexists _, k. split; [exact Hcall|]. intros response w' status Hok H401 H403 H500.
  destruct (Hreply response w') as (_ & _ & _ & Hk & _).
  destruct (Hk H401 H403 H500 Hok) as (k2 & Hk2 & Hfail & Hbody).
  exists k2. split; [exact Hk2|]. split; [exact Hfail|]. split; [|split].
  - intros fields w2. rewrite Hbody. unfold messageOf. cbn.
    destruct (assoc "message" fields) as [[]|]; reflexivity.
  - intros body w2 Hobj Hnull. rewrite Hbody.
    destruct body; try reflexivity; [done|by destruct (Hobj fields)].
  - intros w2. by rewrite Hbody.
Qed.

(** X19.  Every request of [apiFetch] carries an abort signal.  When the
    request is rejected, [apiFetch] rejects with one of two fixed
    errors, the time-out message for an AbortError and the network
    message for anything else: the original error never reaches the
    caller. *)
Theorem apiFetch_transport_error (config : ApiConfig) (path : string)
    (options : RequestInit) (w : World) :
  apiFetch config path options w = Rejected w URIError \/
  exists req k,
    apiFetch config path options w = Await w (PFetch req) k /\
    Request.signal req = true /\
    forall (e : JsError) (w' : World),
      (e = DOMException "AbortError" ->
       k (RejectedWith e) w' = Rejected w' (Error "Request timed out. Please try again.")) /\
      (e <> DOMException "AbortError" ->
       k (RejectedWith e) w' =
         Rejected w' (Error "Network error. Please check your connection.")).
Proof.
  destruct (apiFetch_cases config path options w)
    as [(_ & _ & Hrej)|(headers & k & Hcall & _ & Hfail & _)]; [by left|].
  right. eexists _, k. split; [exact Hcall|]. split; [reflexivity|].
  intros e w'. rewrite Hfail. split.
  - by intros ->.
  - intros Hne. destruct e as [| |name| | |]; try reflexivity. cbn.
    destruct (String.eqb_spec name "AbortError") as [->|]; done.
Qed.

(** X20.  Against any network, [apiFetch] resolves only when its request
    was answered with a status in 200..299, and then leaves the world as
    it found it.  On 204 it resolves with no value and without reading
    the body; otherwise it has read the body once and resolves with what
    it parsed to. *)
Theorem apiFetch_resolves_only_on_success (config : ApiConfig) (path : string)
    (options : RequestInit) (net : forall p : Pending, Outcome p)
    (w w' : World) (result : option Json) (requests : list Pending) :
  runWith net (apiFetch config path options w) = (w', inr result, requests) ->
  exists req response,
    net (PFetch req) = Fulfilled response /\
    Response.ok response = true /\
    w' = w /\
    (Response.status response = 204 /\ result = None /\ requests = [PFetch req] \/
     Response.status response <> 204 /\
     exists data, net (PJson response) = Fulfilled data /\ result = Some data /\
       requests = [PFetch req; PJson response]).
Proof.
  intros Hrun.
  destruct (apiFetch_cases config path options w)
    as [(_ & _ & Hrej)|(headers & k & Hcall & _ & Hfail & Hreply)].
  { rewrite Hrej in Hrun. discriminate Hrun. }
  rewrite Hcall in Hrun. cbn [runWith] in Hrun.
  match type of Hcall with _ = Await _ (PFetch ?r) _ => exists r end.
  destruct (net (PFetch _)) as [response|e] eqn:Hnet.
  2:{ rewrite Hfail in Hrun. discriminate Hrun. }
  exists response. split; [reflexivity|].
  destruct (Hreply response w) as (H401 & H403 & H500 & Hclient & H204 & Hdata).
  destruct (Z.eq_dec (Response.status response) 401) as [E|N401].
  { rewrite (H401 E) in Hrun. discriminate Hrun. }
  destruct (Z.eq_dec (Response.status response) 403) as [E|N403].
  { rewrite (H403 E) in Hrun. discriminate Hrun. }
  destruct (Z_le_gt_dec 500 (Response.status response)) as [E|N500].
  { rewrite (H500 E) in Hrun. discriminate Hrun. }
  destruct (Response.ok response) eqn:Hok.
  2:{ destruct (Hclient N401 N403 ltac:(lia) eq_refl) as (k2 & Hk2 & Hbad & Hbody).
      rewrite Hk2 in Hrun. cbn [runWith] in Hrun.
      destruct (net (PJson response)) as [body|e].
      - rewrite Hbody in Hrun. unfold messageOf in Hrun.
        destruct (getProp body "message") as [[[]|]|]; discriminate Hrun.
      - rewrite Hbad in Hrun. discriminate Hrun. }
  split; [reflexivity|].
  destruct (Z.eq_dec (Response.status response) 204) as [E|N204].
  - rewrite (H204 E) in Hrun. injection Hrun as <- <- <-. split; [done|]. by left.
  - destruct (Hdata eq_refl N204) as (k2 & Hk2 & Hbad & Hgood).
    rewrite Hk2 in Hrun. cbn [runWith] in Hrun.
    destruct (net (PJson response)) as [data|e] eqn:Hjson.
    + rewrite Hgood in Hrun. injection Hrun as <- <- <-. split; [done|].
      right. split; [done|]. by exists data.
    + rewrite Hbad in Hrun. discriminate Hrun.
Qed.


(** *** Flushing the audit queue *)

Lemma history_flush (endpoint : string) (w : World) :
  AUDIT_ENDPOINT = Some endpoint -> endpoint <> "" ->
  history (flushQueue w) = history w /\ history (sendBeaconFlush w) = history w.
Proof.
  intros Hep Hne. unfold history, flushQueue, sendBeaconFlush, sendBatch. rewrite Hep.
  destruct endpoint as [|c endpoint]; [done|].
  destruct (eventQueue (audit w)) as [|ev queue] eqn:Hq; [by rewrite Hq|].
  cbn. rewrite Hq. destruct (hasSendBeacon (browser w)); cbn;
    rewrite !app_nil_r, !List.map_app, !List.concat_app; cbn; by rewrite !app_nil_r.
Qed.

(** X21.  With an audit endpoint configured, flushing an empty queue does
    nothing (no empty batch is sent), and flushing a non-empty queue
    empties it and hands all of it over as one batch: by [fetch] from
    [flushQueue], and from [sendBeaconFlush] by [sendBeacon] where the
    browser has it and by [fetch] where not.  Either way the events held
    or handed over are the same before and after. *)
Theorem flush_hands_over_whole_queue (endpoint : string) (w : World) :
  AUDIT_ENDPOINT = Some endpoint -> endpoint <> "" ->
  (eventQueue (audit w) = [] -> flushQueue w = w /\ sendBeaconFlush w = w) /\
  (eventQueue (audit w) <> [] ->
   eventQueue (audit (flushQueue w)) = [] /\
   delivered (audit (flushQueue w)) =
     (delivered (audit w) ++ [(ViaFetch, eventQueue (audit w))])%list /\
   eventQueue (audit (sendBeaconFlush w)) = [] /\
   delivered (audit (sendBeaconFlush w)) =
     (delivered (audit w) ++
        [(if hasSendBeacon (browser w) then ViaBeacon else ViaFetch,
          eventQueue (audit w))])%list) /\
  history (flushQueue w) = history w /\
  history (sendBeaconFlush w) = history w.
Proof.
  intros Hep Hset. split; [|split; [|by apply (history_flush endpoint)]].
  - intros Hq. unfold flushQueue, sendBeaconFlush. rewrite Hep, Hq.
    by destruct endpoint.
  - intros Hne. unfold flushQueue, sendBeaconFlush, sendBatch. rewrite Hep.
    destruct endpoint as [|c endpoint]; [done|].
    destruct (eventQueue (audit w)) as [|ev queue] eqn:Hq; [done|].
    cbn. rewrite Hq. by destruct (hasSendBeacon (browser w)).
Qed.

(** X22.  With no audit endpoint configured, the variable unset or
    empty, [flushQueue] still empties the queue although [sendBatch]
    sends nothing: the queued events are discarded.  [sendBeaconFlush]
    leaves the queue alone. *)
Theorem flush_without_endpoint_discards (w : World) :
  AUDIT_ENDPOINT = None \/ AUDIT_ENDPOINT = Some "" ->
  eventQueue (audit (flushQueue w)) = [] /\
  delivered (audit (flushQueue w)) = delivered (audit w) /\
  sendBeaconFlush w = w /\
  forall events, sendBatch events w = w.
Proof.
  intros [Hep|Hep]; unfold flushQueue, sendBeaconFlush, sendBatch; rewrite Hep;
    destruct (eventQueue (audit w)) as [|ev queue] eqn:Hq; cbn; by rewrite ?Hq.
Qed.

(** *** Relating the worlds a call runs between *)

Section Along.
Variable R : World -> World -> Prop.
Hypothesis R_refl : forall w, R w w.
Hypothesis R_trans : forall w1 w2 w3, R w1 w2 -> R w2 w3 -> R w1 w3.

Lemma along_from {A : Type} (w0 w1 : World) (t : Async A) :
  R w0 w1 -> along R w1 t -> along R w0 t.
Proof.
  intros H01 Ht. destruct t as [w a|w e|w p k]; cbn in *.
  - by apply (R_trans _ w1).
  - by apply (R_trans _ w1).
  - destruct Ht as [Hw Hk]. split; [by apply (R_trans _ w1)|exact Hk].
Qed.

Lemma along_andThen {A B : Type} (w0 : World) (t : Async A) (f : A -> Task B) :
  along R w0 t -> (forall a, keeps R (f a)) -> along R w0 (andThen t f).
Proof.
  intros Ht Hf. revert w0 Ht. induction t as [w a|w e|w p k IH]; intros w0 Ht; cbn in *.
  - apply (along_from _ w); [exact Ht|apply Hf].
  - exact Ht.
  - destruct Ht as [Hw Hk]. split; [exact Hw|]. intros o w'. apply IH, Hk.
Qed.

Lemma along_orElse {A : Type} (w0 : World) (t : Async A) (h : JsError -> Task A) :
  along R w0 t -> (forall e, keeps R (h e)) -> along R w0 (orElse t h).
Proof.
  intros Ht Hh. revert w0 Ht. induction t as [w a|w e|w p k IH]; intros w0 Ht; cbn in *.
  - exact Ht.
  - apply (along_from _ w); [exact Ht|apply Hh].
  - destruct Ht as [Hw Hk]. split; [exact Hw|]. intros o w'. apply IH, Hk.
Qed.

Lemma keeps_bind {A B : Type} (m : Task A) (f : A -> Task B) :
  keeps R m -> (forall a, keeps R (f a)) -> keeps R (bind m f).
Proof. intros Hm Hf w. apply along_andThen; [apply Hm|exact Hf]. Qed.

Lemma keeps_try_catch {A : Type} (m : Task A) (h : JsError -> Task A) :
  keeps R m -> (forall e, keeps R (h e)) -> keeps R (try_catch m h).
Proof. intros Hm Hh w. apply along_orElse; [apply Hm|exact Hh]. Qed.

Lemma keeps_ret {A : Type} (a : A) : keeps R (ret a).
Proof. intros w. apply R_refl. Qed.

Lemma keeps_throw {A : Type} (e : JsError) : keeps R (@throw A e).
Proof. intros w. apply R_refl. Qed.

Lemma keeps_exec (f : World -> World) : (forall w, R w (f w)) -> keeps R (exec f).
Proof. intros Hf w. apply Hf. Qed.

Lemma keeps_await (p : Pending) : keeps R (await p).
Proof. intros w. split; [apply R_refl|]. intros o w'. apply R_refl. Qed.

Lemma keeps_fetch (req : Request.t) : keeps R (fetch req).
Proof.
  apply keeps_bind; [apply keeps_await|].
  intros [r|e]; [apply keeps_ret|apply keeps_throw].
Qed.

Lemma keeps_json (resp : Response.t) : keeps R (json resp).
Proof.
  apply keeps_bind; [apply keeps_await|].
  intros [r|e]; [apply keeps_ret|apply keeps_throw].
Qed.

Lemma keeps_getCsrfToken : keeps R getCsrfToken.
Proof.
  intros w. unfold getCsrfToken.
  destruct (find _ _); [|apply R_refl]. destruct (decodeURIComponent _); apply R_refl.
Qed.

Lemma along_park (w0 : World) (t : Async unit) (others : list Suspended) :
  along R w0 t ->
  Forall (fun t => forall o w, along R w (resume t o w)) others ->
  R w0 (world (park t others)) /\
  Forall (fun t => forall o w, along R w (resume t o w)) (pool (park t others)).
Proof.
  intros Ht Ho. destruct t as [w a|w e|w p k]; cbn in *; [by split..|].
  destruct Ht as [Hw Hk]. split; [exact Hw|]. by constructor.
Qed.
End Along.

(** Walks through a call as [walk] does, for [keeps]. *)
Ltac stroll :=
  repeat lazymatch goal with
  | |- keeps _ (bind _ _) => apply keeps_bind; [assumption| |intros ?]
  | |- keeps _ (try_catch _ _) => apply keeps_try_catch; [assumption| |intros ?]
  | |- keeps _ (ret _) => apply keeps_ret; assumption
  | |- keeps _ (throw _) => apply keeps_throw; assumption
  | |- keeps _ (await _) => apply keeps_await; assumption
  | |- keeps _ (fetch _) => apply keeps_fetch; assumption
  | |- keeps _ (json _) => apply keeps_json; assumption
  | |- keeps _ getCsrfToken => apply keeps_getCsrfToken; assumption
  | |- keeps _ (exec _) => apply keeps_exec; intros ?
  | |- keeps _ (if ?b then _ else _) => destruct b
  | |- keeps _ (match ?x with _ => _ end) => destruct x
  end.

(** *** No event is lost on the way out *)

Lemma conserving_refl (w : World) : conserving w w.
Proof. unfold conserving. reflexivity. Qed.

Lemma conserving_trans (w1 w2 w3 : World) :
  conserving w1 w2 -> conserving w2 w3 -> conserving w1 w3.
Proof. unfold conserving. by intros ? ?; etrans. Qed.

Lemma conserving_push (ev : AuditEvent.t) (w : World) : conserving w (push ev w).
Proof. unfold conserving, history. cbn. rewrite app_assoc. by apply prefix_app_r. Qed.

Lemma conserving_frame (w w' : World) :
  eventQueue (audit w') = eventQueue (audit w) ->
  delivered (audit w') = delivered (audit w) ->
  conserving w w'.
Proof. unfold conserving, history. by intros -> ->. Qed.

Lemma conserving_applyToken_of (v : option Json) (w : World) :
  conserving w (applyToken_of v w).
Proof.
  destruct v as [[| | |accessToken| |]|]; try apply conserving_refl. cbn.
  destruct (applyToken_audit accessToken w) as (Hq & Hd & _). by apply conserving_frame.
Qed.

Lemma conserving_clearRefreshTimer (w : World) : conserving w (clearRefreshTimer w).
Proof. apply conserving_frame; unfold clearRefreshTimer; by case_match. Qed.

Lemma conserving_clearSession (w : World) : conserving w (clearSession w).
Proof. apply conserving_frame; unfold clearSession, clearRefreshTimer; by case_match. Qed.

Section WithEndpoint.
Variable endpoint : string.
Hypothesis configured : AUDIT_ENDPOINT = Some endpoint.
Hypothesis nonempty : endpoint <> "".

Lemma conserving_flushQueue (w : World) : conserving w (flushQueue w).
Proof.
  unfold conserving. by destruct (history_flush endpoint w configured nonempty) as [-> _].
Qed.

Lemma conserving_sendBeaconFlush (w : World) : conserving w (sendBeaconFlush w).
Proof.
  unfold conserving. by destruct (history_flush endpoint w configured nonempty) as [_ ->].
Qed.

Ltac trail :=
  first
    [ by apply conserving_push | by apply conserving_applyToken_of
    | by apply conserving_clearSession | by apply conserving_clearRefreshTimer
    | by apply conserving_flushQueue
    | by apply conserving_frame ].

Lemma keeps_silentRefresh : keeps conserving silentRefresh.
Proof.
  pose proof conserving_refl. pose proof conserving_trans.
  unfold silentRefresh, accessTokenOf. stroll; trail.
Qed.

Lemma keeps_perform (c : Call) : keeps conserving (perform c).
Proof.
  pose proof conserving_refl as Hrefl. pose proof conserving_trans as Htrans.
  destruct c; cbn [perform].
  - apply keeps_silentRefresh.
  - stroll; trail.
  - unfold login, auditLogger.logLogin, auditLogger.logLoginFailed, hashEmail, accessTokenOf.
    stroll; trail.
  - unfold logout. stroll; trail.
  - unfold discard, apiFetch, messageOf. apply keeps_bind; [done| |intros _; stroll].
    apply keeps_bind; [done|intros w; apply Hrefl|]. intros tok.
    apply keeps_bind; [done| |].
    { case_bool_decide; stroll. }
    intros headers. stroll; trail.
  - stroll; trail.
  - stroll; trail.
  - stroll; trail.
  - stroll; trail.
  - stroll; trail.
Qed.

Lemma reachable_pool_keeps (s : System) :
  reachable s ->
  Forall (fun t => forall o w, along conserving w (resume t o w)) (pool s).
Proof.
  induction 1 as [t0 cookies beacon|s s' _ IH Hstep]; [constructor|].
  destruct Hstep as [s c|s i t o Hi|s id delay Hid|s dt|s|s]; try exact IH.
  - apply (along_park conserving (world s)); [apply keeps_perform|exact IH].
  - apply (along_park conserving (world s)).
    + rewrite Forall_lookup in IH. apply (IH i t Hi).
    + by apply Forall_delete.
  - apply (along_park conserving (clearTimeout id (world s)));
      [apply keeps_silentRefresh|exact IH].
Qed.

Lemma step_conserving (s s' : System) :
  reachable s -> step s s' -> conserving (world s) (world s').
Proof.
  intros Hs Hstep. pose proof (reachable_pool_keeps s Hs) as Hpool.
  destruct Hstep as [s c|s i t o Hi|s id delay Hid|s dt|s|s].
  - apply (along_park conserving (world s)); [apply keeps_perform|exact Hpool].
  - apply (along_park conserving (world s) _ (delete i (pool s))).
    + rewrite Forall_lookup in Hpool. apply (Hpool i t Hi).
    + by apply Forall_delete.
  - apply (conserving_trans _ (clearTimeout id (world s))); [by apply conserving_frame|].
    apply (along_park conserving (clearTimeout id (world s)));
      [apply keeps_silentRefresh|exact Hpool].
  - by apply conserving_frame.
  - apply conserving_flushQueue.
  - apply conserving_sendBeaconFlush.
Qed.
End WithEndpoint.

(** X23.  With an audit endpoint configured, no run of the page loses an
    audit event: from a reachable state on, whatever is called, settles
    or fires, the events handed over or still queued before are all
    still there afterwards, unchanged and in the same order, followed by
    the newer ones. *)
Theorem audit_events_never_lost (endpoint : string) (s s' : System) :
  AUDIT_ENDPOINT = Some endpoint -> endpoint <> "" ->
  reachable s -> rtc step s s' ->
  history (world s) `prefix_of` history (world s').
Proof.
  intros Hep Hne Hs Hrun. induction Hrun as [s|s s1 s' Hstep _ IH]; [done|].
  etrans; [by apply (step_conserving endpoint)|].
  apply IH. by apply (reachable_step s).
Qed.


(** *** What every audit event carries *)

Lemma stamped_later (w w' : World) (ev : AuditEvent.t) :
  (uuidCount (browser w) <= uuidCount (browser w'))%nat ->
  stamped w ev -> stamped w' ev.
Proof.
  intros Hle (Hc & n & Hn & Hs). split; [exact Hc|]. exists n. split; [lia|exact Hs].
Qed.

Lemma trail_frame (w w' : World) :
  sessionId (audit w') = sessionId (audit w) ->
  eventQueue (audit w') = eventQueue (audit w) ->
  delivered (audit w') = delivered (audit w) ->
  uuidCount (browser w') = uuidCount (browser w) ->
  wellFormedTrail w -> wellFormedTrail w'.
Proof.
  intros Hs Hq Hd Hn (Hid & Hbatches & Hevents). unfold wellFormedTrail, history.
  rewrite Hs, Hq, Hd, Hn. split; [exact Hid|]. split; [exact Hbatches|].
  eapply Forall_impl; [exact Hevents|]. intros ev. apply stamped_later. lia.
Qed.

Lemma trail_enqueue (action : AuditAction) (target : option string)
    (metadata : list (string * MetaValue)) (w : World) :
  wellFormedTrail w -> wellFormedTrail (enqueue action target metadata w).
Proof.
  intros (Hid & Hbatches & Hevents). split; [exact Hid|]. split; [exact Hbatches|].
  unfold history in *. cbn. rewrite app_assoc. apply Forall_app. split.
  - exact Hevents.
  - constructor; [|constructor]. split; [reflexivity|exact Hid].
Qed.

Lemma trail_resetSession (w : World) :
  wellFormedTrail w -> wellFormedTrail (auditLogger.resetSession w).
Proof.
  intros (Hid & Hbatches & Hevents). split; [|split; [exact Hbatches|]].
  - exists (uuidCount (browser w)). cbn. split; [lia|reflexivity].
  - eapply Forall_impl; [exact Hevents|]. intros ev. apply stamped_later. cbn. lia.
Qed.

Lemma trail_handed_over (via : Transport) (w w' : World) :
  sessionId (audit w') = sessionId (audit w) ->
  uuidCount (browser w') = uuidCount (browser w) ->
  eventQueue (audit w) <> [] ->
  eventQueue (audit w') = [] ->
  delivered (audit w') = (delivered (audit w) ++ [(via, eventQueue (audit w))])%list ->
  wellFormedTrail w -> wellFormedTrail w'.
Proof.
  intros Hs Hn Hne Hq Hd (Hid & Hbatches & Hevents). unfold wellFormedTrail, history in *.
  rewrite Hs, Hn, Hq, Hd. split; [exact Hid|]. split.
  - apply Forall_app. split; [exact Hbatches|]. by constructor.
  - rewrite app_nil_r, List.map_app, List.concat_app. cbn. rewrite app_nil_r.
    eapply Forall_impl; [exact Hevents|]. intros ev. apply stamped_later. lia.
Qed.

Lemma trail_dropped (w w' : World) :
  sessionId (audit w') = sessionId (audit w) ->
  uuidCount (browser w') = uuidCount (browser w) ->
  eventQueue (audit w') = [] ->
  delivered (audit w') = delivered (audit w) ->
  wellFormedTrail w -> wellFormedTrail w'.
Proof.
  intros Hs Hn Hq Hd (Hid & Hbatches & Hevents). unfold wellFormedTrail, history in *.
  rewrite Hs, Hn, Hq, Hd. split; [exact Hid|]. split; [exact Hbatches|].
  rewrite app_nil_r. apply Forall_app in Hevents as [Hold _].
  eapply Forall_impl; [exact Hold|]. intros ev. apply stamped_later. lia.
Qed.

Lemma trail_flushQueue (w : World) : wellFormedTrail w -> wellFormedTrail (flushQueue w).
Proof.
  unfold flushQueue, sendBatch.
  destruct (eventQueue (audit w)) as [|ev queue] eqn:Hq; [done|].
  destruct AUDIT_ENDPOINT as [[|c endpoint]|]; cbn.
  - by apply trail_dropped.
  - apply (trail_handed_over ViaFetch); cbn; by rewrite ?Hq.
  - by apply trail_dropped.
Qed.

Lemma trail_sendBeaconFlush (w : World) :
  wellFormedTrail w -> wellFormedTrail (sendBeaconFlush w).
Proof.
  unfold sendBeaconFlush, sendBatch.
  destruct AUDIT_ENDPOINT as [[|c endpoint]|]; [done| |done].
  destruct (eventQueue (audit w)) as [|ev queue] eqn:Hq; [done|]. cbn.
  destruct (hasSendBeacon (browser w)).
  - apply (trail_handed_over ViaBeacon); cbn; by rewrite ?Hq.
  - apply (trail_handed_over ViaFetch); cbn; by rewrite ?Hq.
Qed.

Lemma trail_applyToken_of (v : option Json) (w : World) :
  wellFormedTrail w -> wellFormedTrail (applyToken_of v w).
Proof.
  destruct v as [[| | |accessToken| |]|]; try done. cbn.
  destruct (applyToken_audit accessToken w) as (Hq & Hd & Hs).
  apply trail_frame; try done. unfold applyToken, clearRefreshTimer. cbn.
  by repeat case_match.
Qed.

Lemma trail_clearRefreshTimer (w : World) :
  wellFormedTrail w -> wellFormedTrail (clearRefreshTimer w).
Proof. apply trail_frame; unfold clearRefreshTimer; by case_match. Qed.

Lemma trail_clearSession (w : World) :
  wellFormedTrail w -> wellFormedTrail (clearSession w).
Proof. apply trail_frame; unfold clearSession, clearRefreshTimer; by case_match. Qed.

Ltac follow :=
  lazymatch goal with
  | |- preserves _ (hashEmail _) => apply preserves_hashEmail
  | |- preserves _ (accessTokenOf _) => apply preserves_accessTokenOf
  | |- preserves _ getCsrfToken => apply preserves_getCsrfToken
  | |- preserves _ (messageOf _) => apply preserves_messageOf
  | |- forall w, _ -> _ =>
      intros ? ?;
      first
        [ by apply trail_enqueue | by apply trail_applyToken_of
        | by apply trail_clearSession | by apply trail_clearRefreshTimer
        | by apply trail_flushQueue | by apply trail_resetSession
        | by eapply trail_frame; [..|eassumption] ]
  end.

Lemma trail_silentRefresh : preserves wellFormedTrail silentRefresh.
Proof. unfold silentRefresh. walk; follow. Qed.

Lemma trail_perform (c : Call) : preserves wellFormedTrail (perform c).
Proof.
  destruct c; cbn [perform].
  - apply trail_silentRefresh.
  - walk; follow.
  - unfold login, auditLogger.logLogin, auditLogger.logLoginFailed. walk; follow.
  - unfold logout. walk; follow.
  - unfold discard, apiFetch. apply preserves_bind; [|intros _; apply preserves_ret].
    apply preserves_bind; [intros w Hw; exact Hw|]. intros tok.
    apply preserves_bind.
    { case_bool_decide; walk; follow. }
    intros headers. walk; follow.
  - walk; follow.
  - walk; follow.
  - walk; follow.
  - walk; follow.
  - walk; follow.
Qed.

Lemma always_park (I : World -> Prop) (t : Async unit) (others : list Suspended) :
  always I t ->
  Forall (fun t => forall o w, I w -> always I (resume t o w)) others ->
  I (world (park t others)) /\
  Forall (fun t => forall o w, I w -> always I (resume t o w)) (pool (park t others)).
Proof.
  intros Ht Ho. destruct t as [w a|w e|w p k]; cbn in *; [by split..|].
  destruct Ht as [Hw Hk]. split; [exact Hw|]. by constructor.
Qed.

Lemma trail_reachable (s : System) :
  reachable s ->
  wellFormedTrail (world s) /\
  Forall (fun t => forall o w, wellFormedTrail w -> always wellFormedTrail (resume t o w))
    (pool s).
Proof.
  induction 1 as [t0 cookies beacon|s s' _ [Hw Hp] Hstep].
  - split; [|constructor]. split; [|split; constructor]. exists 0%nat. cbn. split; [lia|done].
  - destruct Hstep as [s c|s i t o Hi|s id delay Hid|s dt|s|s].
    + apply always_park; [by apply trail_perform|exact Hp].
    + apply always_park.
      * rewrite Forall_lookup in Hp. by apply (Hp i t Hi).
      * by apply Forall_delete.
    + apply always_park; [|exact Hp]. apply trail_silentRefresh.
      by eapply trail_frame; [..|exact Hw].
    + split; [|exact Hp]. by eapply trail_frame; [..|exact Hw].
    + split; [|exact Hp]. by apply trail_flushQueue.
    + split; [|exact Hp]. by apply trail_sendBeaconFlush.
Qed.

(** X24.  In every reachable state, no batch that was handed over is
    empty, and every event handed over or queued carries the correlation
    id of the page and a session id that [crypto.randomUUID] has handed
    out on this page. *)
Theorem audit_trail_well_formed (s : System) :
  reachable s ->
  (forall via events, (via, events) ∈ delivered (audit (world s)) -> events <> []) /\
  (forall ev, ev ∈ history (world s) ->
     AuditEvent.correlationId ev = SESSION_CORRELATION_ID /\
     exists n, (n < uuidCount (browser (world s)))%nat /\
       AuditEvent.sessionId ev = randomUUID n).
Proof.
  intros Hs. destruct (trail_reachable s Hs) as [(_ & Hbatches & Hevents) _]. split.
  - intros via events Hin. rewrite Forall_forall in Hbatches. apply (Hbatches _ Hin).
  - intros ev Hin. rewrite Forall_forall in Hevents. apply (Hevents _ Hin).
Qed.


(** *** The CSRF cookie *)

Lemma lacksChar_append (c : ascii) (s t : string) :
  lacksChar c (s ++ t) = lacksChar c s && lacksChar c t.
Proof. apply allChars_append. Qed.

(** X25.  [getCsrfToken] reads the value of the XSRF-TOKEN cookie up to
    its first equals sign only: when the cookie string is that one
    cookie, the token returned is the URI-decoded value without anything
    from an equals sign on (the padding of a base64 value, for one), and
    the call throws when that part does not decode. *)
Theorem getCsrfToken_value_cut_at_equals (w : World) (value tail : string) :
  cookie (browser w) = "XSRF-TOKEN=" ++ value ++ tail ->
  lacksChar ";" (value ++ tail) = true ->
  lacksChar "=" value = true ->
  tail = "" \/ (exists more, tail = "=" ++ more) ->
  trim (cookie (browser w)) = cookie (browser w) ->
  getCsrfToken w =
    match decodeURIComponent value with
    | Some token => Resolved w (Some token)
    | None => Rejected w URIError
    end.
Proof.
  intros Hcookie Hsemi Heq Htail Htrim. unfold getCsrfToken.
  assert (Hone : split ";" (cookie (browser w)) = [cookie (browser w)]).
  { unfold split. rewrite split_from_last; [reflexivity|].
    rewrite Hcookie, lacksChar_append, Hsemi. reflexivity. }
  rewrite Hone. cbn [map find]. rewrite Htrim.
  assert (Hstarts : startsWith "XSRF-TOKEN=" (cookie (browser w)) = true).
  { apply prefix_app. rewrite Hcookie. by eexists. }
  rewrite Hstarts.
  assert (Hvalue : split "=" (cookie (browser w)) !! 1%nat = Some value).
  { rewrite Hcookie. unfold split.
    change ("XSRF-TOKEN=" ++ value ++ tail) with ("XSRF-TOKEN" ++ String "=" (value ++ tail)).
    rewrite split_from_segment by reflexivity. cbn [lookup list_lookup].
    destruct Htail as [->|[more ->]].
    - rewrite append_empty, (split_from_last _ _ _ Heq). reflexivity.
    - change (value ++ "=" ++ more) with (value ++ String "=" more).
      rewrite (split_from_segment _ _ _ _ Heq). reflexivity. }
  rewrite Hvalue. cbn. by destruct (decodeURIComponent value).
Qed.

(** *** The route guards *)

Lemma logUnauthorizedAccess_shape (pathname : string) (w : World) :
  let w' := auditLogger.logUnauthorizedAccess pathname w in
  eventQueue (audit w') =
    (eventQueue (audit w) ++
       [buildEvent unauthorized_access_attempt (Some pathname) [] w])%list /\
  auth w' = auth w /\ browser w' = browser w /\ delivered (audit w') = delivered (audit w).
Proof. done. Qed.

Lemma ProtectedRoute_cases (requiredRole : option UserRole) (pathname : string)
    (w : World) :
  let outcome := fst (ProtectedRoute requiredRole pathname w) in
  let after := snd (ProtectedRoute requiredRole pathname w) in
  (isAuthenticated w = false ->
   outcome = NavigateTo "/login" (Some pathname) /\ after = w) /\
  (isAuthenticated w = true ->
   forall role, requiredRole = Some role -> role <> "" -> hasRole role w = false ->
   outcome = NavigateTo "/unauthorized" None /\
   eventQueue (audit after) =
     (eventQueue (audit w) ++
        [buildEvent unauthorized_access_attempt (Some pathname) [] w])%list /\
   auth after = auth w) /\
  (outcome = RenderChildren <->
   isAuthenticated w = true /\
   forall role, requiredRole = Some role -> role <> "" -> hasRole role w = true) /\
  (outcome = RenderChildren -> after = w).
Proof.
  unfold ProtectedRoute. destruct (isAuthenticated w); cbn [negb].
  2:{ cbn. split; [done|]. split; [done|]. split; [|done]. split; [done|]. by intros [? _]. }
  assert (Hcases :
    (exists role, requiredRole = Some role /\ role <> "" /\ hasRole role w = false) \/
    (forall role, requiredRole = Some role -> role <> "" -> hasRole role w = true)).
  { destruct requiredRole as [role|]; [|by right].
    destruct (String.eqb_spec role "") as [->|Hne]; [right; by intros ? [= <-]|].
    destruct (hasRole role w) eqn:Hrole; [right; by intros ? [= <-]|].
    left. by exists role. }
  destruct Hcases as [(role & -> & Hne & Hrole)|Hall].
  - rewrite Hrole. destruct role as [|c role]; [done|]. cbn.
    split; [done|]. split; [by intros _ ? [= <-]|]. split; [|done]. split; [done|].
    intros [_ Hall]. specialize (Hall _ eq_refl Hne). congruence.
  - assert (Hpass : match requiredRole with
                    | Some role => truthy (Some role) && negb (hasRole role w)
                    | None => false
                    end = false).
    { destruct requiredRole as [[|c role]|]; [done| |done].
      by rewrite (Hall _ eq_refl). }
    rewrite Hpass. cbn. split; [done|]. split.
    { intros _ role Hreq Hne Hno. rewrite (Hall role Hreq Hne) in Hno. discriminate. }
    split; [|done]. by split.
Qed.

(** X26.  [ProtectedRoute] denies by default.  An unauthenticated visitor
    is sent to /login with the path kept, and nothing is logged.  An
    authenticated one lacking the required role is sent to /unauthorized
    and exactly one unauthorized_access_attempt event for the path is
    queued, attributed to the logger's subject and session.  The children are rendered exactly when the visitor is
    authenticated and passes the check of the required role, if one is
    given, and then nothing is logged. *)
Theorem ProtectedRoute_decision (requiredRole : option UserRole) (pathname : string)
    (w : World) :
  let outcome := fst (ProtectedRoute requiredRole pathname w) in
  let after := snd (ProtectedRoute requiredRole pathname w) in
  (isAuthenticated w = false ->
   outcome = NavigateTo "/login" (Some pathname) /\ after = w) /\
  (isAuthenticated w = true ->
   forall role, requiredRole = Some role -> role <> "" -> hasRole role w = false ->
   outcome = NavigateTo "/unauthorized" None /\
   eventQueue (audit after) =
     (eventQueue (audit w) ++
        [buildEvent unauthorized_access_attempt (Some pathname) [] w])%list /\
   auth after = auth w) /\
  (outcome = RenderChildren <->
   isAuthenticated w = true /\
   forall role, requiredRole = Some role -> role <> "" -> hasRole role w = true) /\
  (outcome = RenderChildren -> after = w) /\
  (isAuthenticated w = true ->
   forall role, requiredRole = Some role -> role <> "" -> hasRole role w = false ->
   exists ev,
     eventQueue (audit after) = (eventQueue (audit w) ++ [ev])%list /\
     AuditEvent.action ev = unauthorized_access_attempt /\
     AuditEvent.target ev = Some pathname /\
     AuditEvent.metadata ev = [] /\
     AuditEvent.userId ev = currentUserId (audit w) /\
     AuditEvent.sessionId ev = sessionId (audit w)).
Proof.
  intros outcome after.
  destruct (ProtectedRoute_cases requiredRole pathname w) as (Hout & Hdenied & Hin & Hsame).
  split; [exact Hout|]. split; [exact Hdenied|]. split; [exact Hin|].
  split; [exact Hsame|]. intros Hauth role Hreq Hne Hrole.
  destruct (Hdenied Hauth role Hreq Hne Hrole) as (_ & Hqueue & _).
  eexists. split; [exact Hqueue|]. repeat split.
Qed.

(** X27.  [AdminRoute] renders its children exactly when a token is held
    and the claims name the role admin; nothing is logged by that render,
    and whoever passes passes [ProtectedRoute] for every required role
    and path. *)
Theorem AdminRoute_admin_only (pathname : string) (w : World) :
  (fst (AdminRoute pathname w) = RenderChildren <->
   token (auth w) <> None /\
   exists u, user (auth w) = Some u /\ AuthUser.role u = "admin") /\
  (fst (AdminRoute pathname w) = RenderChildren ->
   snd (AdminRoute pathname w) = w /\
   forall requiredRole path,
     ProtectedRoute requiredRole path w = (RenderChildren, w)).
Proof.
  unfold AdminRoute, ProtectedRoute.
  destruct (isAuthenticated w) eqn:Hin; cbn.
  2:{ split; [|done]. split; [done|]. intros [Ht (u & Hu & _)].
      assert (isAuthenticated w = true); [|congruence].
      apply isAuthenticated_true. by rewrite Hu. }
  apply isAuthenticated_true in Hin as [Ht Hu].
  destruct (hasRole "admin" w) eqn:Hadmin; cbn.
  - unfold hasRole in Hadmin. destruct (user (auth w)) as [u|] eqn:Huser; [|done].
    cbn in Hadmin. apply String.eqb_eq in Hadmin. split.
    + split; [|done]. intros _. split; [done|]. by exists u.
    + intros _. split; [done|]. intros [role|] path; [|done].
      rewrite (hasRole_admin_all w role); [by rewrite andb_false_r|].
      unfold hasRole. rewrite Huser. cbn. by apply String.eqb_eq.
  - split; [|done]. split; [done|]. intros [_ (u & Huser & Hrole)].
    unfold hasRole in Hadmin. rewrite Huser in Hadmin. cbn in Hadmin.
    apply String.eqb_neq in Hadmin. done.
Qed.

Lemma AdminRoute_mount_cases (pathname : string) (w : World) :
  let outcome := fst (AdminRoute_mount pathname w) in
  let after := snd (AdminRoute_mount pathname w) in
  auth after = auth w /\ browser after = browser w /\
  delivered (audit after) = delivered (audit w) /\
  (isAuthenticated w = false ->
   outcome = NavigateTo "/login" (Some pathname) /\ after = w) /\
  (isAuthenticated w = true -> hasRole "admin" w = false ->
   outcome = NavigateTo "/unauthorized" None /\
   eventQueue (audit after) =
     (eventQueue (audit w) ++
        [buildEvent unauthorized_access_attempt (Some pathname) [] w;
         buildEvent unauthorized_access_attempt (Some pathname) [] w])%list) /\
  (isAuthenticated w = true -> hasRole "admin" w = true ->
   outcome = RenderChildren /\
   eventQueue (audit after) =
     (eventQueue (audit w) ++ [buildEvent admin_page_access (Some pathname) [] w])%list).
Proof.
  unfold AdminRoute_mount, AdminRoute, AdminRoute_effects.
  destruct (isAuthenticated w), (hasRole "admin" w); cbn; repeat split; try done.
  all: by rewrite <- app_assoc.
Qed.

(** X28.  Mounting [AdminRoute] touches nothing but the audit queue.  An
    unauthenticated visitor is sent to /login with nothing logged.  An
    authenticated visitor who is not an admin is sent to /unauthorized
    and logged twice, once by the render and once by the effect that
    re-checks the role.  An admin gets the children and one
    admin_page_access event. *)
Theorem AdminRoute_mount_logs (pathname : string) (w : World) :
  let outcome := fst (AdminRoute_mount pathname w) in
  let after := snd (AdminRoute_mount pathname w) in
  auth after = auth w /\ browser after = browser w /\
  delivered (audit after) = delivered (audit w) /\
  (isAuthenticated w = false ->
   outcome = NavigateTo "/login" (Some pathname) /\ after = w) /\
  (isAuthenticated w = true -> hasRole "admin" w = false ->
   outcome = NavigateTo "/unauthorized" None /\
   eventQueue (audit after) =
     (eventQueue (audit w) ++
        [buildEvent unauthorized_access_attempt (Some pathname) [] w;
         buildEvent unauthorized_access_attempt (Some pathname) [] w])%list) /\
  (isAuthenticated w = true -> hasRole "admin" w = true ->
   outcome = RenderChildren /\
   eventQueue (audit after) =
     (eventQueue (audit w) ++ [buildEvent admin_page_access (Some pathname) [] w])%list) /\
  (isAuthenticated w = true -> hasRole "admin" w = false ->
   exists ev1 ev2,
     eventQueue (audit after) = (eventQueue (audit w) ++ [ev1; ev2])%list /\
     AuditEvent.action ev1 = unauthorized_access_attempt /\
     AuditEvent.action ev2 = unauthorized_access_attempt /\
     AuditEvent.target ev1 = Some pathname /\
     AuditEvent.target ev2 = Some pathname /\
     AuditEvent.userId ev1 = currentUserId (audit w) /\
     AuditEvent.userId ev2 = currentUserId (audit w)) /\
  (isAuthenticated w = true -> hasRole "admin" w = true ->
   exists ev,
     eventQueue (audit after) = (eventQueue (audit w) ++ [ev])%list /\
     AuditEvent.action ev = admin_page_access /\
     AuditEvent.target ev = Some pathname /\
     AuditEvent.userId ev = currentUserId (audit w)).
Proof.
  intros outcome after.
  destruct (AdminRoute_mount_cases pathname w)
    as (Hauth & Hbrowser & Hdelivered & Hout & Hdenied & Hgranted).
  split; [exact Hauth|]. split; [exact Hbrowser|]. split; [exact Hdelivered|].
  split; [exact Hout|]. split; [exact Hdenied|]. split; [exact Hgranted|]. split.
  - intros Hin Hrole. destruct (Hdenied Hin Hrole) as [_ Hqueue].
    eexists _, _. split; [exact Hqueue|]. repeat split.
  - intros Hin Hrole. destruct (Hgranted Hin Hrole) as [_ Hqueue].
    eexists. split; [exact Hqueue|]. repeat split.
Qed.

End Proofs.

(* ================================================================== *)
(** ** The theorems at work on the example platform *)
(* ================================================================== *)

Import Fixture.

Lemma mounted_reachable : reachable mounted.
Proof.
  apply (reachable_step (initial 1700000000000 "" true)); [apply reachable_initial|].
  exact (step_call (initial 1700000000000 "" true) Mount).
Qed.

Lemma signedIn_reachable : reachable signedIn.
Proof. apply reachable_settleFirst, reachable_settleFirst, mounted_reachable. Qed.

(** Alice is signed in with the timer 1 armed; her token is applied
    again: timer 2 replaces it, due 3540 seconds later. *)
Lemma one_refresh_timer_witness :
  timers (browser (applyToken aliceToken (world signedIn))) = {[ 2%nat := 3540000 ]} /\
  refreshTimerRef (auth (applyToken aliceToken (world signedIn))) = Some 2%nat /\
  size (timers (browser (applyToken aliceToken (world signedIn)))) = 1%nat.
Proof.
  destruct (one_refresh_timer signedIn signedIn_reachable) as [_ Happly].
  destruct (Happly aliceToken alice eq_refl) as (_ & Harm & _).
  apply Harm. vm_compute. reflexivity.
Defined.

Lemma token_and_claims_together_witness :
  isAuthenticated (world signedIn) = true <-> token (auth (world signedIn)) <> None.
Proof.
  destruct (token_and_claims_together signedIn signedIn_reachable) as (_ & Hiff & _).
  exact Hiff.
Defined.

Lemma logout_clears_session_witness :
  exists w1 k,
    logout (world signedIn) = Await w1 (PFetch (authRequest "/api/auth/logout" None)) k /\
    timers (browser w1) = ∅ /\
    exists w2,
      k (RejectedWith TypeError) w1 = Resolved w2 tt /\
      token (auth w2) = None /\ user (auth w2) = None.
Proof.
  destruct (logout_clears_session signedIn signedIn_reachable)
    as (w1 & k & Hcall & _ & Hempty & _ & Hend).
  exists w1, k. split; [exact Hcall|]. split; [exact Hempty|].
  destruct (Hend (RejectedWith TypeError) w1) as (w2 & Hk & Ht & Hu & _).
  exists w2. split; [exact Hk|]. split; [exact Ht|exact Hu].
Defined.

Lemma garbledToken_malformed : malformed garbledToken.
Proof.
  right. exists "bm90IGpzb24=". split; [reflexivity|].
  right. exists "not json". split; reflexivity.
Qed.

Lemma applyToken_malformed_noop_witness :
  applyToken garbledToken (world signedIn) = world signedIn /\
  applyToken "only.two" world0 = world0.
Proof.
  split.
  - apply applyToken_malformed_noop, garbledToken_malformed.
  - apply applyToken_malformed_noop. left. vm_compute. discriminate.
Defined.

Lemma hasRole_spec_witness :
  hasRole "viewer" (world signedIn) = true /\
  hasRole "reviewer" (world signedIn) = true /\
  hasRole "admin" (world signedIn) = false /\
  hasRole "admin" world0 = false.
Proof.
  destruct (hasRole_spec signedIn signedIn_reachable) as [_ Hin].
  destruct (Hin eq_refl) as (u & Hu & Hviewer & Hreviewer & Hadmin).
  injection Hu as <-.
  split; [exact Hviewer|]. split; [apply Hreviewer; by left|].
  split.
  - apply not_true_is_false. intros Hrole. apply Hadmin in Hrole. discriminate Hrole.
  - destruct (hasRole_spec (initial 1700000000000 "" true) (reachable_initial _ _ _))
      as [Hout _].
    apply (Hout eq_refl).
Defined.

Lemma apiFetch_unauthorized_witness :
  exists req k w2,
    apiFetch signingOut "/api/movies" getMovies (world signedIn) =
      Await (world signedIn) (PFetch req) k /\
    k (Fulfilled {| Response.status := 401 |}) (world signedIn) =
      Rejected w2 (Error "Session expired. Please log in again.") /\
    token (auth (world signedIn)) = Some aliceToken /\
    token (auth w2) = None /\
    user (auth w2) = None /\
    logoutCalls w2 = 1%nat /\
    redirects w2 = ["/login"].
Proof.
  destruct (apiFetch_unauthorized signingOut "/api/movies" getMovies (world signedIn)
              (fun _ => eq_refl)) as [Hrej|(req & k & Hcall & _ & H401)].
  { discriminate Hrej. }
  destruct (H401 {| Response.status := 401 |} (world signedIn) eq_refl)
    as (w2 & Hk & _ & _ & Hauth & _ & _ & Hcalls & Hredirects).
  exists req, k, w2. split; [exact Hcall|]. split; [exact Hk|].
  split; [reflexivity|]. split; [by rewrite Hauth|]. split; [by rewrite Hauth|].
  split; [exact Hcalls|exact Hredirects].
Defined.





(** C9 as stated fails: [logLogin] gives control back before anything is
    queued. *)
Lemma logLogin_returns_before_enqueue :
  ~ completedSynchronously
      (callOp (H := Fixture.platform) (OpLogLogin "user@example.com") Fixture.world0) /\
  match callOp (H := Fixture.platform) (OpLogLogin "user@example.com") Fixture.world0 with
  | Await w (PDigest _ _) _ => eventQueue (audit w) = []
  | _ => False
  end.
Proof. split; [|reflexivity]. intros (w & a & Hdone). discriminate Hdone. Qed.

Lemma refresh_audited_without_transition_witness :
  exists w3 ev,
    runWith (serving garbledToken) (silentRefresh (world signedIn)) = (w3, inr tt,
      [PFetch (authRequest "/api/auth/refresh" None);
       PJson {| Response.status := 200 |}]) /\
    auth w3 = auth (world signedIn) /\
    timers (browser w3) = timers (browser (world signedIn)) /\
    eventQueue (audit w3) = (eventQueue (audit (world signedIn)) ++ [ev])%list /\
    AuditEvent.action ev = token_refresh.
Proof.
  destruct (refresh_audited_without_transition (world signedIn)) as (k & Hcall & Hok).
  destruct (Hok {| Response.status := 200 |} (world signedIn) eq_refl)
    as (k2 & Hk & Hbody).
  destruct (Hbody (JObj [("accessToken", JStr garbledToken)]) (Some (JStr garbledToken))
              (world signedIn) eq_refl)
    as (w3 & ev & Hk2 & Hauth & Hbrowser & _ & _ & _ & Hqueue & _ & Haction & _).
  { intros accessToken payload [= <-]. by rewrite (malformed_decode _ garbledToken_malformed). }
  exists w3, ev. split; [|split; [exact Hauth|split; [|split; [|exact Haction]]]].
  - rewrite Hcall. cbn [runWith serving]. rewrite Hk. cbn [runWith serving].
    rewrite Hk2. reflexivity.
  - by rewrite Hbrowser.
  - rewrite Hqueue. reflexivity.
Defined.

(** *** Further properties at work *)

Lemma steps_flush_logout :
  rtc step signedIn flushedThenSignedOut.
Proof.
  apply (rtc_l _ _ flushed); [exact (step_batch signedIn)|].
  apply (rtc_l _ _ (park (perform Logout (world flushed)) (pool flushed))).
  - exact (step_call flushed Logout).
  - apply rtc_once.
    exact (step_settle (park (perform Logout (world flushed)) (pool flushed)) 0 _
             (refusing 204 _) eq_refl).
Qed.

Lemma hasRole_ordered_witness :
  hasRole "viewer" (world signedIn) = true /\
  hasRole "moderator" (world signedIn) = hasRole "admin" (world signedIn) /\
  hasRole "reviewer" asAdmin = true.
Proof.
  destruct (hasRole_ordered (world signedIn)) as (_ & Hviewer & Hother).
  destruct (hasRole_ordered asAdmin) as (Hadmin & _).
  split; [apply Hviewer; reflexivity|].
  split; [apply Hother; discriminate|apply Hadmin; reflexivity].
Defined.

Lemma isValidCdnUrl_spec_witness :
  isValidCdnUrl "https://img-1.cdn.imdb-lite.com/posters/1.jpg" = true.
Proof.
  apply isValidCdnUrl_spec. exists "img-1", "posters/1.jpg".
  repeat split; try reflexivity. discriminate.
Defined.

Lemma hexOfBytes_injective_witness :
  [x0a; xff]%byte = rev [xff; x0a]%byte.
Proof. apply hexOfBytes_injective. reflexivity. Defined.

Lemma decodeJwtPayload_reads_payload_only_witness :
  decodeJwtPayload "header.a-b_.signature" = decodeJwtPayload "other.a+b/.forged".
Proof.
  apply (decodeJwtPayload_reads_payload_only
           "header" "other" "a-b_" "a+b/" "signature" "forged"); reflexivity.
Defined.

Lemma silentRefresh_failure_clears_witness :
  exists k w2 k2 w3,
    silentRefresh (world signedIn) =
      Await (world signedIn) (PFetch (authRequest "/api/auth/refresh" None)) k /\
    timers (browser (world signedIn)) !! 1%nat = Some 3540000 /\
    k (Fulfilled {| Response.status := 503 |}) (world signedIn) = Resolved w2 tt /\
    token (auth w2) = None /\ user (auth w2) = None /\
    timers (browser w2) !! 1%nat = None /\
    k (Fulfilled {| Response.status := 200 |}) (world signedIn) =
      Await (world signedIn) (PJson {| Response.status := 200 |}) k2 /\
    k2 (RejectedWith SyntaxError) (world signedIn) = Resolved w3 tt /\
    token (auth w3) = None /\ user (auth w3) = None /\
    timers (browser w3) !! 1%nat = None.
Proof.
  destruct (silentRefresh_failure_clears (world signedIn)) as (k & Hcall & Hfail & Hok).
  destruct (Hfail (Fulfilled {| Response.status := 503 |}) (world signedIn) eq_refl)
    as (w2 & Hk & Ht & Hu & _ & _ & Htimer & _).
  destruct (Hok {| Response.status := 200 |} (world signedIn) eq_refl) as (k2 & Hk2 & Hbody).
  destruct (Hbody (RejectedWith SyntaxError) (world signedIn) I)
    as (w3 & Hk3 & Ht3 & Hu3 & _ & _ & Htimer3 & _).
  exists k, w2, k2, w3. split; [exact Hcall|]. split; [reflexivity|].
  split; [exact Hk|]. split; [exact Ht|]. split; [exact Hu|].
  split; [apply Htimer; reflexivity|]. split; [exact Hk2|]. split; [exact Hk3|].
  split; [exact Ht3|]. split; [exact Hu3|]. apply Htimer3. reflexivity.
Defined.

Lemma silentRefresh_success_attributed_witness :
  exists w3,
    runWith (serving aliceToken) (silentRefresh world0) =
      (w3, inr tt, [PFetch (authRequest "/api/auth/refresh" None);
                    PJson {| Response.status := 200 |}]) /\
    token (auth w3) = Some aliceToken /\
    exists ev, eventQueue (audit w3) = [ev] /\ AuditEvent.userId ev = Some "user-1".
Proof.
  destruct (silentRefresh_success_attributed world0) as (k & Hcall & Hok).
  destruct (Hok {| Response.status := 200 |} world0 eq_refl) as (k2 & Hk & Hbody).
  destruct (Hbody (JObj [("accessToken", JStr aliceToken)]) aliceToken alice world0
              eq_refl eq_refl)
    as (w3 & ev & Hk2 & Ht & _ & Hqueue & _ & Hid & _).
  exists w3. split; [|split; [exact Ht|]].
  - rewrite Hcall. cbn [runWith serving]. rewrite Hk. cbn [runWith serving].
    rewrite Hk2. reflexivity.
  - exists ev. split; [exact Hqueue|exact Hid].
Defined.

Lemma login_success_witness :
  exists w4 ev,
    runWith (serving aliceToken) (login "alice@example.com" "secret123" world0) =
      (w4, inr tt,
       [PFetch (authRequest "/api/auth/login"
                  (Some (BodyJson [("email", "alice@example.com");
                                   ("password", "secret123")])));
        PJson {| Response.status := 200 |};
        PDigest "SHA-256" (list_byte_of_string "alice@example.com")]) /\
    isAuthenticated (applyToken aliceToken world0) = true /\
    eventQueue (audit (applyToken aliceToken world0)) = [] /\
    eventQueue (audit w4) = [ev] /\
    AuditEvent.action ev = login_.
Proof.
  destruct (login_success "alice@example.com" "secret123" world0) as (k & Hcall & Hok).
  destruct (Hok {| Response.status := 200 |} world0 eq_refl) as (k2 & Hk & Hbody).
  destruct (Hbody (JObj [("accessToken", JStr aliceToken)]) aliceToken alice world0
              eq_refl eq_refl)
    as (k3 & Hk2 & Hin & _ & Hqueue & Hend).
  destruct (Hend tt (applyToken aliceToken world0)) as (w4 & ev & Hk3 & Hq & Hact & _).
  exists w4, ev. split; [|split; [exact Hin|split; [exact Hqueue|split]]].
  - rewrite Hcall. cbn [runWith serving]. rewrite Hk. cbn [runWith serving].
    rewrite Hk2. cbn [runWith serving]. rewrite Hk3. reflexivity.
  - rewrite Hq, Hqueue. reflexivity.
  - exact Hact.
Defined.

Lemma login_resolves_without_session_witness :
  exists w4,
    runWith (serving garbledToken) (login "alice@example.com" "secret123" world0) =
      (w4, inr tt,
       [PFetch (authRequest "/api/auth/login"
                  (Some (BodyJson [("email", "alice@example.com");
                                   ("password", "secret123")])));
        PJson {| Response.status := 200 |};
        PDigest "SHA-256" (list_byte_of_string "alice@example.com")]) /\
    auth w4 = auth world0 /\
    isAuthenticated w4 = false /\
    List.length (eventQueue (audit w4)) = 1%nat.
Proof.
  destruct (login_resolves_without_session "alice@example.com" "secret123" world0)
    as (k & Hcall & Hok).
  destruct (Hok {| Response.status := 200 |} world0 eq_refl) as (k2 & Hk & Hbody).
  destruct (Hbody (JObj [("accessToken", JStr garbledToken)]) (Some (JStr garbledToken))
              world0 eq_refl)
    as (k3 & Hk2 & Hend).
  { intros accessToken payload [= <-]. by rewrite (malformed_decode _ garbledToken_malformed). }
  destruct (Hend tt world0) as (w4 & ev & Hk3 & Hq & _ & Hauth & _).
  exists w4. split; [|split; [exact Hauth|split]].
  - rewrite Hcall. cbn [runWith serving]. rewrite Hk. cbn [runWith serving].
    rewrite Hk2. cbn [runWith serving]. rewrite Hk3. reflexivity.
  - unfold isAuthenticated. rewrite Hauth. reflexivity.
  - rewrite Hq. reflexivity.
Defined.

Lemma login_transport_errors_pass_through_witness :
  exists k k2,
    login "alice@example.com" "secret123" world0 =
      Await world0
        (PFetch (authRequest "/api/auth/login"
                   (Some (BodyJson [("email", "alice@example.com");
                                    ("password", "secret123")])))) k /\
    k (RejectedWith TypeError) world0 = Rejected world0 TypeError /\
    k (Fulfilled {| Response.status := 200 |}) world0 =
      Await world0 (PJson {| Response.status := 200 |}) k2 /\
    k2 (RejectedWith SyntaxError) world0 = Rejected world0 SyntaxError /\
    k2 (Fulfilled JNull) world0 = Rejected world0 TypeError.
Proof.
  destruct (login_transport_errors_pass_through "alice@example.com" "secret123" world0)
    as (k & Hcall & Hnet & Hok).
  destruct (Hok {| Response.status := 200 |} world0 eq_refl) as (k2 & Hk & Hbody & Hnull).
  exists k, k2. split; [exact Hcall|]. split; [apply Hnet|]. split; [exact Hk|].
  split; [apply Hbody|apply Hnull; reflexivity].
Defined.

Lemma applyToken_replaces_witness :
  token (auth (applyToken aliceToken (applyToken expiringToken (world signedIn)))) =
    Some aliceToken /\
  user (auth (applyToken aliceToken (applyToken expiringToken (world signedIn)))) =
    Some (jwtToAuthUser alice) /\
  forall id delay,
    timers (browser (applyToken aliceToken (applyToken expiringToken (world signedIn))))
      !! id = Some delay ->
    delay = 3540000.
Proof.
  destruct (applyToken_replaces signedIn expiringToken aliceToken alice
              signedIn_reachable eq_refl)
    as (Ht & Hu & _ & _ & _ & _ & Hdelay).
  split; [exact Ht|]. split; [exact Hu|exact Hdelay].
Defined.

Lemma apiFetch_safe_methods_skip_csrf_witness :
  exists req k,
    apiFetch testConfig "/api/movies" getMovies withCsrfCookie =
      Await withCsrfCookie (PFetch req) k /\
    Request.url req = "http://localhost:8080/api/movies" /\
    Request.method req = "GET" /\
    Request.headers req !! "X-XSRF-TOKEN" = None.
Proof.
  destruct (apiFetch_safe_methods_skip_csrf testConfig "/api/movies" getMovies withCsrfCookie)
    as (req & k & Hcall & Hurl & Hmethod & _ & _ & Hcsrf).
  { apply (bool_decide_unpack _). vm_compute. exact I. }
  exists req, k. split; [exact Hcall|]. split; [exact Hurl|]. split; [exact Hmethod|].
  exact Hcsrf.
Defined.

Lemma apiFetch_csrf_header_witness :
  exists req k,
    apiFetch testConfig "/api/reviews" post withCsrfCookie =
      Await withCsrfCookie (PFetch req) k /\
    Request.headers req !! "X-XSRF-TOKEN" = Some "csrf-test-token-123".
Proof.
  destruct (apiFetch_csrf_header testConfig "/api/reviews" post withCsrfCookie)
    as [[Hrej _]|(csrfToken & req & k & Hcookie & Hcall & _ & Hheader)].
  { apply (bool_decide_unpack _). vm_compute. exact I. }
  { discriminate Hrej. }
  injection Hcookie as <-.
  exists req, k. split; [exact Hcall|exact Hheader].
Defined.

Lemma apiFetch_authorization_header_witness :
  exists req k,
    apiFetch testConfig "/api/movies" getMovies world0 = Await world0 (PFetch req) k /\
    Request.headers req !! "Authorization" = Some "Bearer test-token-abc" /\
    Request.headers req !! "Content-Type" = Some "application/json".
Proof.
  destruct (apiFetch_authorization_header testConfig "/api/movies" getMovies world0)
    as [Hrej|(req & k & Hcall & Hbearer & _ & Hdefaults)].
  { discriminate Hrej. }
  exists req, k. split; [exact Hcall|]. split.
  - apply Hbearer; [reflexivity|discriminate].
  - apply (Hdefaults "Content-Type"). by left.
Defined.

Lemma apiFetch_forbidden_witness :
  exists req k w2,
    apiFetch testConfig "/api/admin/movies" getMovies world0 =
      Await world0 (PFetch req) k /\
    k (Fulfilled {| Response.status := 403 |}) world0 = Rejected w2 (Error "Access denied.") /\
    redirects w2 = ["/unauthorized"] /\
    logoutCalls w2 = 0%nat.
Proof.
  destruct (apiFetch_forbidden testConfig "/api/admin/movies" getMovies world0)
    as [Hrej|(req & k & Hcall & H403)].
  { discriminate Hrej. }
  destruct (H403 {| Response.status := 403 |} world0 eq_refl)
    as (w2 & Hk & _ & Hcalls & Hredirects & _).
  exists req, k, w2. split; [exact Hcall|]. split; [exact Hk|].
  split; [exact Hredirects|exact Hcalls].
Defined.

Lemma apiFetch_server_error_witness :
  exists req k w2,
    apiFetch testConfig "/api/movies" getMovies world0 = Await world0 (PFetch req) k /\
    k (Fulfilled {| Response.status := 503 |}) world0 = Rejected w2 (Error "Server error.") /\
    effects (browser w2) =
      [CallErrorToast "Something went wrong. Please try again later."].
Proof.
  destruct (apiFetch_server_error testConfig "/api/movies" getMovies world0
              (fun _ _ => eq_refl))
    as [Hrej|(req & k & Hcall & H500)].
  { discriminate Hrej. }
  destruct (H500 {| Response.status := 503 |} world0 ltac:(cbn; lia))
    as (w2 & Hk & _ & Heffects & _).
  exists req, k, w2. split; [exact Hcall|]. split; [exact Hk|exact Heffects].
Defined.

Lemma apiFetch_client_error_witness :
  exists req k k2,
    apiFetch testConfig "/api/movies/0" getMovies world0 = Await world0 (PFetch req) k /\
    k (Fulfilled {| Response.status := 404 |}) world0 =
      Await world0 (PJson {| Response.status := 404 |}) k2 /\
    k2 (Fulfilled (JObj [("message", JStr "No such movie")])) world0 =
      Rejected world0 (ApiError 404 "No such movie") /\
    k2 (RejectedWith SyntaxError) world0 = Rejected world0 (ApiError 404 "Request failed").
Proof.
  destruct (apiFetch_client_error testConfig "/api/movies/0" getMovies world0)
    as [Hrej|(req & k & Hcall & Hclient)].
  { discriminate Hrej. }
  destruct (Hclient {| Response.status := 404 |} world0 eq_refl)
    as (k2 & Hk & Hfail & Hbody & _); [cbn; lia..|].
  exists req, k, k2. split; [exact Hcall|]. split; [exact Hk|].
  split; [apply Hbody|apply Hfail].
Defined.

Lemma apiFetch_transport_error_witness :
  exists req k,
    apiFetch testConfig "/api/movies" getMovies world0 = Await world0 (PFetch req) k /\
    k (RejectedWith (DOMException "AbortError")) world0 =
      Rejected world0 (Error "Request timed out. Please try again.") /\
    k (RejectedWith TypeError) world0 =
      Rejected world0 (Error "Network error. Please check your connection.").
Proof.
  destruct (apiFetch_transport_error testConfig "/api/movies" getMovies world0)
    as [Hrej|(req & k & Hcall & _ & Hfail)].
  { discriminate Hrej. }
  exists req, k. split; [exact Hcall|]. split.
  - apply (Hfail (DOMException "AbortError") world0). reflexivity.
  - apply (Hfail TypeError world0). discriminate.
Defined.

Lemma apiFetch_resolves_only_on_success_witness :
  exists req response,
    serving aliceToken (PFetch req) = Fulfilled response /\
    Response.ok response = true /\
    Response.status response <> 204.
Proof.
  destruct (apiFetch_resolves_only_on_success testConfig "/api/movies" getMovies
              (serving aliceToken) world0 world0
              (Some (JObj [("accessToken", JStr aliceToken)]))
              [PFetch {| Request.url := "http://localhost:8080/api/movies";
                         Request.method := "GET";
                         Request.headers :=
                           {[ "Authorization" := "Bearer test-token-abc";
                              "Content-Type" := "application/json";
                              "X-Correlation-ID" := testUUID ]};
                         Request.credentials := "include";
                         Request.body := None;
                         Request.signal := true;
                         Request.keepalive := false |};
               PJson {| Response.status := 200 |}])
    as (req & response & Hnet & Hok & _ & [[H204 _]|[Hdata _]]).
  - vm_compute. reflexivity.
  - cbn in Hnet. injection Hnet as <-. discriminate H204.
  - exists req, response. split; [exact Hnet|]. split; [exact Hok|exact Hdata].
Defined.

Lemma flush_hands_over_whole_queue_witness :
  eventQueue (audit (flushQueue (auditLogger.logLogout world0))) = [] /\
  delivered (audit (sendBeaconFlush (auditLogger.logLogout world0))) =
    [(ViaBeacon, [buildEvent logout_ None [] world0])] /\
  flushQueue world0 = world0.
Proof.
  destruct (flush_hands_over_whole_queue (H := Fixture.platform)
              "http://localhost:8080/api/audit/events"
              (auditLogger.logLogout world0) eq_refl ltac:(discriminate))
    as (_ & Hfull & _).
  destruct (flush_hands_over_whole_queue (H := Fixture.platform)
              "http://localhost:8080/api/audit/events"
              world0 eq_refl ltac:(discriminate))
    as (Hempty & _).
  destruct Hfull as (Hq & _ & _ & Hd); [discriminate|].
  split; [exact Hq|]. split; [exact Hd|]. apply Hempty. reflexivity.
Defined.

Lemma flush_without_endpoint_discards_witness :
  eventQueue (audit (flushQueue (H := Offline.platform)
                       (auditLogger.logLogout (H := Offline.platform) world0))) = [] /\
  delivered (audit (flushQueue (H := Offline.platform)
                      (auditLogger.logLogout (H := Offline.platform) world0))) = [] /\
  sendBeaconFlush (H := Offline.platform)
    (auditLogger.logLogout (H := Offline.platform) world0) =
  auditLogger.logLogout (H := Offline.platform) world0.
Proof.
  destruct (flush_without_endpoint_discards (H := Offline.platform)
              (auditLogger.logLogout (H := Offline.platform) world0)
              (or_introl eq_refl))
    as (Hq & Hd & Hkeep & _).
  split; [exact Hq|]. split; [exact Hd|exact Hkeep].
Defined.

Lemma audit_events_never_lost_witness :
  history (world signedIn) `prefix_of` history (world flushedThenSignedOut) /\
  List.length (eventQueue (audit (world signedIn))) = 1%nat /\
  List.length (history (world signedIn)) = 1%nat /\
  List.length (delivered (audit (world flushedThenSignedOut))) = 1%nat /\
  List.length (history (world flushedThenSignedOut)) = 2%nat.
Proof.
  split; [|by vm_compute].
  apply (audit_events_never_lost "http://localhost:8080/api/audit/events"
           signedIn flushedThenSignedOut).
  - reflexivity.
  - discriminate.
  - exact signedIn_reachable.
  - exact steps_flush_logout.
Defined.

Lemma audit_trail_well_formed_witness :
  Forall (fun ev => AuditEvent.correlationId ev = testUUID /\
                    AuditEvent.sessionId ev = testUUID)
    (history (world signedIn)) /\
  List.length (history (world signedIn)) = 1%nat.
Proof.
  destruct (audit_trail_well_formed signedIn signedIn_reachable) as [_ Hevents].
  split; [|reflexivity]. apply Forall_forall. intros ev Hin.
  destruct (Hevents ev Hin) as (Hc & n & _ & Hs). split; [exact Hc|exact Hs].
Defined.

Lemma getCsrfToken_value_cut_at_equals_witness :
  getCsrfToken (initialWorld 1700000000000 "XSRF-TOKEN=YWJj==" true) =
    Resolved (initialWorld 1700000000000 "XSRF-TOKEN=YWJj==" true) (Some "YWJj").
Proof.
  exact (getCsrfToken_value_cut_at_equals (H := Fixture.platform)
           (initialWorld 1700000000000 "XSRF-TOKEN=YWJj==" true) "YWJj" "=="
           eq_refl eq_refl eq_refl (or_intror (ex_intro _ "=" eq_refl)) eq_refl).
Defined.

Lemma ProtectedRoute_decision_witness :
  fst (ProtectedRoute (Some "reviewer") "/reviews/new" world0) =
    NavigateTo "/login" (Some "/reviews/new") /\
  fst (ProtectedRoute (Some "reviewer") "/reviews/new" (world signedIn)) = RenderChildren /\
  fst (ProtectedRoute (Some "admin") "/admin" (world signedIn)) =
    NavigateTo "/unauthorized" None.
Proof.
  destruct (ProtectedRoute_decision (Some "reviewer") "/reviews/new" world0) as (Hout & _).
  destruct (ProtectedRoute_decision (Some "reviewer") "/reviews/new" (world signedIn))
    as (_ & _ & Hin & _).
  destruct (ProtectedRoute_decision (Some "admin") "/admin" (world signedIn))
    as (_ & Hdenied & _).
  split; [apply Hout; reflexivity|]. split.
  - apply Hin. split; [reflexivity|]. intros role [= <-] _. reflexivity.
  - apply (Hdenied eq_refl "admin" eq_refl); [discriminate|reflexivity].
Defined.

Lemma AdminRoute_admin_only_witness :
  fst (AdminRoute "/admin" asAdmin) = RenderChildren /\
  ProtectedRoute (Some "reviewer") "/reviews/new" asAdmin = (RenderChildren, asAdmin).
Proof.
  destruct (AdminRoute_admin_only "/admin" asAdmin) as [Hiff Hpass].
  assert (Hrender : fst (AdminRoute "/admin" asAdmin) = RenderChildren).
  { apply Hiff. split; [discriminate|]. eexists. split; reflexivity. }
  split; [exact Hrender|]. apply (Hpass Hrender).
Defined.

Lemma AdminRoute_mount_logs_witness :
  fst (AdminRoute_mount "/admin" (world signedIn)) = NavigateTo "/unauthorized" None /\
  List.length (eventQueue (audit (snd (AdminRoute_mount "/admin" (world signedIn))))) =
    3%nat /\
  fst (AdminRoute_mount "/admin" asAdmin) = RenderChildren.
Proof.
  destruct (AdminRoute_mount_logs "/admin" (world signedIn)) as (_ & _ & _ & _ & Hdenied & _).
  destruct (AdminRoute_mount_logs "/admin" asAdmin) as (_ & _ & _ & _ & _ & Hgranted & _).
  destruct (Hdenied eq_refl eq_refl) as [Hout Hqueue].
  destruct (Hgranted eq_refl eq_refl) as [Hin _].
  split; [exact Hout|]. split; [|exact Hin]. rewrite Hqueue. reflexivity.
Defined.

(* ================================================================== *)
(** ** The repository's tests, replayed on the model *)
(* ================================================================== *)

(** The digest of the example platform on the test vectors of FIPS 180-4
    (one block and two blocks). *)
Example sha256_abc :
  hexOfBytes (SHA256.digest (list_byte_of_string "abc")) =
  "ba7816bf8f01cfea414140de5dae2223b00361a396177a9cb410ff61f20015ad".
Proof. vm_compute. reflexivity. Qed.

Example sha256_two_blocks :
  hexOfBytes (SHA256.digest
    (list_byte_of_string "abcdbcdecdefdefgefghfghighijhijkijkljklmklmnlmnomnopnopq")) =
  "248d6a61d20638b8e5c026930c3e6039a33ce45964ff2167f6ecedd419db06c1".
Proof. vm_compute. reflexivity. Qed.

(** AuthContext.test.tsx, 'starts unauthenticated' *)
Example starts_unauthenticated :
  isAuthenticated (world (settleFirst (refusing 401) mounted)) = false.
Proof. reflexivity. Qed.

(** AuthContext.test.tsx, 'sets user from decoded JWT payload' *)
Example sets_user_from_payload :
  AuthUser.email <$> user (auth (world signedIn)) = Some "alice@example.com" /\
  AuthUser.role <$> user (auth (world signedIn)) = Some "reviewer".
Proof. split; reflexivity. Qed.

(** AuthContext.test.tsx, 'clears token from memory on logout' *)
Example clears_token_on_logout :
  isAuthenticated (world signedIn) = true /\
  isAuthenticated (world signedOut) = false /\
  user (auth (world signedOut)) = None /\
  timers (browser (world signedOut)) = ∅.
Proof. repeat split; reflexivity. Qed.

(** auditLogger.test.ts, 'builds events with required fields' *)
Example builds_events :
  AuditEvent.action <$> eventQueue (audit (auditLogger.logLogout world0)) = [logout_].
Proof. reflexivity. Qed.

(** auditLogger.test.ts, 'hashes email before logging' *)
Example hashes_email_before_logging :
  match runWith (serving "") (auditLogger.logLogin "user@example.com" world0) with
  | (w, _, [PDigest "SHA-256" _]) =>
      AuditEvent.metadata <$> eventQueue (audit w) =
        [[("emailHash",
           MetaString "b4c9a289323b21a01c3e940f150eb9b8c542587f1abfd8f0e1cc1ffc5e475514")]] /\
      forallb (fun ev => forallb (fun s => negb (includes "user@example.com" s))
                           (eventStrings ev))
              (eventQueue (audit w)) = true
  | _ => False
  end.
Proof. vm_compute. repeat split. Qed.

(** auditLogger.test.ts, 'sets userId when user is authenticated' *)
Example sets_userId :
  AuditEvent.userId <$>
    eventQueue (audit (auditLogger.logLogout (auditLogger.setUser (Some "user-123") world0)))
  = [Some "user-123"].
Proof. reflexivity. Qed.

(** auditLogger.test.ts, 'logSearch logs term length, not the raw term' *)
Example logSearch_term_length :
  AuditEvent.metadata <$> eventQueue (audit (auditLogger.logSearch "The Dark Knight" world0))
  = [[("termLength", MetaNumber 15)]].
Proof. reflexivity. Qed.

(** apiClient.test.ts, 'attaches Authorization header with bearer token' and
    'sends credentials: include' *)
Example attaches_authorization :
  match runWith (serving "") (apiFetch testConfig "/api/test" getMovies world0) with
  | (_, inr (Some _), [PFetch req; PJson _]) =>
      Request.headers req !! "Authorization" = Some "Bearer test-token-abc" /\
      Request.headers req !! "X-XSRF-TOKEN" = None /\
      Request.credentials req = "include"
  | _ => False
  end.
Proof. vm_compute. repeat split. Qed.

(** apiClient.test.ts, 'adds X-XSRF-TOKEN header on POST requests' *)
Example adds_csrf_on_post :
  match runWith (serving "") (apiFetch testConfig "/api/reviews" post withCsrfCookie) with
  | (_, _, PFetch req :: _) =>
      Request.method req = "POST" /\
      Request.headers req !! "X-XSRF-TOKEN" = Some "csrf-test-token-123"
  | _ => False
  end.
Proof. vm_compute. repeat split. Qed.

(** apiClient.test.ts, 'does not expose raw error stack traces to caller' *)
Example server_error_is_generic :
  match runWith (refusing 500) (apiFetch testConfig "/api/test" getMovies world0) with
  | (w, r, [PFetch _]) =>
      r = inl (Error "Server error.") /\
      effects (browser w) = [CallErrorToast "Something went wrong. Please try again later."]
  | _ => False
  end.
Proof. vm_compute. repeat split. Qed.

(** apiClient.test.ts, 'throws ApiError with status for 4xx errors' *)
Example client_error_carries_status :
  match runWith (refusing 400) (apiFetch testConfig "/api/test" getMovies world0) with
  | (_, r, [PFetch _; PJson _]) => r = inl (ApiError 400 "Request refused")
  | _ => False
  end.
Proof. vm_compute. repeat split. Qed.

(** The sign-in scenario: valid credentials, a reviewer token expiring in
    an hour. *)
Example login_scenario :
  match runWith (serving aliceToken) (login "alice@example.com" "secret" world0) with
  | (w, r, [PFetch _; PJson _; PDigest _ _]) =>
      r = inr tt /\
      isAuthenticated w = true /\
      hasRole "reviewer" w = true /\
      hasRole "admin" w = false /\
      AuditEvent.action <$> eventQueue (audit w) = [login_] /\
      map_to_list (timers (browser w)) = [(1%nat, 3540000)]
  | _ => False
  end.
Proof. vm_compute. repeat split. Qed.
